(** * CutyCapt: capture orchestration and format dispatch

    A shallow embedding of [cutycapt.cpp] / [cutycapt.hpp]: the format
    table, the command line loop of [main], the slots of [CutyCapt], the
    dialog and certificate overrides of [CutyEnginePage], and the Qt event
    loop that delivers their events.  Qt itself (widgets, timers, the web
    engine) is the environment: what it reports arrives as an [Event]. *)

From Stdlib Require Import ZArith QArith Qround List String Ascii Bool Lia.
Import ListNotations.
Open Scope string_scope.
Open Scope Z_scope.

(** ** Output formats and the extension table *)

(** [CutyCapt::OutputFormat], in the order of the enum. *)
Inductive OutputFormat : Type :=
| SvgFormat | PdfFormat | PsFormat | InnerTextFormat | HtmlFormat
| PngFormat | JpegFormat | MngFormat | TiffFormat | GifFormat
| BmpFormat | PpmFormat | XbmFormat | XpmFormat | OtherFormat.

Definition OutputFormat_eq_dec (a b : OutputFormat) : {a = b} + {a <> b}.
Proof. decide equality. Defined.

Definition format_eqb (a b : OutputFormat) : bool :=
  if OutputFormat_eq_dec a b then true else false.

(** [struct _CutyExtMap]. *)
Record _CutyExtMap : Type := ExtEntry {
  id : OutputFormat;
  extension : string;
  identifier : string
}.

(** The table, entry by entry as in the source, sentinel included. *)
Definition CutyExtMap : list _CutyExtMap :=
  [ ExtEntry SvgFormat ".svg" "svg";     ExtEntry PdfFormat ".pdf" "pdf";
    ExtEntry PsFormat ".ps" "ps";        ExtEntry InnerTextFormat ".txt" "itext";
    ExtEntry HtmlFormat ".html" "html";  ExtEntry JpegFormat ".jpeg" "jpeg";
    ExtEntry PngFormat ".png" "png";     ExtEntry MngFormat ".mng" "mng";
    ExtEntry TiffFormat ".tiff" "tiff";  ExtEntry GifFormat ".gif" "gif";
    ExtEntry BmpFormat ".bmp" "bmp";     ExtEntry PpmFormat ".ppm" "ppm";
    ExtEntry XbmFormat ".xbm" "xbm";     ExtEntry XpmFormat ".xpm" "xpm";
    ExtEntry OtherFormat "" "" ].

(** The entries a loop [for (ix = 0; CutyExtMap[ix].id != OtherFormat; ++ix)]
    visits: everything before the first sentinel. *)
Fixpoint upToSentinel (tbl : list _CutyExtMap) : list _CutyExtMap :=
  match tbl with
  | [] => []
  | e :: rest =>
      if format_eqb (id e) OtherFormat then [] else e :: upToSentinel rest
  end.

(** The lookup at the head of [saveSnapshot]: the identifier of the first
    entry whose id is [fmt]; [None] is the [nullptr] the variable starts as. *)
Fixpoint lookupIdentifier (tbl : list _CutyExtMap) (fmt : OutputFormat)
  : option string :=
  match tbl with
  | [] => None
  | e :: rest =>
      if format_eqb (id e) fmt then Some (identifier e)
      else lookupIdentifier rest fmt
  end.

(** ** C strings *)

(** [strcmp(a, b) == 0]. *)
Definition strcmp0 (a b : string) : bool := String.eqb a b.

(** [strncmp(a, b, n) == 0]: at most [n] characters are compared and the
    comparison stops at the terminator of either string. *)
Fixpoint strncmp0 (a b : string) (n : nat) : bool :=
  match n with
  | O => true
  | S n' =>
      match a, b with
      | EmptyString, EmptyString => true
      | String x a', String y b' =>
          if Ascii.eqb x y then strncmp0 a' b' n' else false
      | _, _ => false
      end
  end.

(** [strchr(s, c)] for a character other than the terminator: the offset of
    the first occurrence and the string that starts there. *)
Fixpoint strchr (s : string) (c : ascii) : option (nat * string) :=
  match s with
  | EmptyString => None
  | String x r =>
      if Ascii.eqb x c then Some (O, s)
      else match strchr r c with
           | Some (n, t) => Some (S n, t)
           | None => None
           end
  end.

(** [p + 1] for a pointer into a string. *)
Definition next (p : string) : string :=
  match p with
  | EmptyString => EmptyString
  | String _ r => r
  end.

(** [QString::endsWith]. *)
Definition endsWith (s suffix : string) : bool :=
  let n := String.length s in
  let m := String.length suffix in
  (m <=? n)%nat && String.eqb (substring (n - m) m s) suffix.

(** [QString::isEmpty]. *)
Definition isEmptyStr (s : string) : bool :=
  match s with
  | EmptyString => true
  | String _ _ => false
  end.

(** ** [strtol(value, nullptr, 0)] and the integer conversions around it *)

Definition isspace (c : ascii) : bool :=
  let n := nat_of_ascii c in
  ((n =? 32) || ((9 <=? n) && (n <=? 13)))%nat.

(** The value of a character as a digit, letters counting from 10. *)
Definition digitValue (c : ascii) : option Z :=
  let n := Z.of_nat (nat_of_ascii c) in
  if (48 <=? n) && (n <=? 57) then Some (n - 48)
  else if (97 <=? n) && (n <=? 122) then Some (n - 87)
  else if (65 <=? n) && (n <=? 90) then Some (n - 55)
  else None.

Definition isDigitOf (base : Z) (c : ascii) : bool :=
  match digitValue c with
  | Some d => d <? base
  | None => false
  end.

Fixpoint skipSpace (s : string) : string :=
  match s with
  | String c r => if isspace c then skipSpace r else s
  | EmptyString => s
  end.

(** The longest run of digits of [base] at the head of [s], accumulated. *)
Fixpoint digits (base : Z) (s : string) (acc : Z) : Z :=
  match s with
  | String c r =>
      match digitValue c with
      | Some d => if d <? base then digits base r (acc * base + d) else acc
      | None => acc
      end
  | EmptyString => acc
  end.

Definition LONG_MAX : Z := 2 ^ 63 - 1.
Definition LONG_MIN : Z := - 2 ^ 63.

(** Base 0: a [0x] prefix followed by a hexadecimal digit selects base 16,
    another leading [0] base 8, anything else base 10; a value out of the
    range of [long] is clamped; no digits at all gives 0. *)
Definition strtol (value : string) : Z :=
  let s1 := skipSpace value in
  let '(neg, s2) :=
    match s1 with
    | String "-"%char r => (true, r)
    | String "+"%char r => (false, r)
    | _ => (false, s1)
    end in
  let '(base, s3) :=
    match s2 with
    | String "0"%char (String x (String h r)) =>
        if (Ascii.eqb x "x"%char || Ascii.eqb x "X"%char) && isDigitOf 16 h
        then (16, String h r) else (8, s2)
    | String "0"%char _ => (8, s2)
    | _ => (10, s2)
    end in
  let magnitude := digits base s3 0 in
  let v := if neg then - magnitude else magnitude in
  Z.max LONG_MIN (Z.min LONG_MAX v).

(** Conversion of a [long] to [uint32_t]. *)
Definition to_uint32 (z : Z) : Z := z mod 2 ^ 32.

(** Conversion to [int] / [int32_t]: wrap-around into [-2^31, 2^31). *)
Definition to_int32 (z : Z) : Z := (z + 2 ^ 31) mod 2 ^ 32 - 2 ^ 31.

(** ** Sizes *)

Record QSize : Type := mkQSize { wd : Z; ht : Z }.

(** [QSize()]: the invalid size. *)
Definition QSize_null : QSize := mkQSize (-1) (-1).

(** [QSize::isEmpty]: either dimension is less than 1. *)
Definition isEmpty (sz : QSize) : bool := (wd sz <? 1) || (ht sz <? 1).

(** [QSizeF], with real-valued dimensions taken as rationals. *)
Record QSizeF : Type := mkQSizeF { wdF : Q; htF : Q }.

(** [qRound] on the reals: the nearest integer, halves away from zero. *)
Definition qRound (d : Q) : Z :=
  if Qle_bool 0%Q d then Qfloor (d + (1 # 2))%Q else Qceiling (d - (1 # 2))%Q.

(** [d > 0] on the reals. *)
Definition Qgt0 (d : Q) : bool := negb (Qle_bool d 0%Q).

(** [QSizeF::toSize]. *)
Definition toSize (sz : QSizeF) : QSize :=
  mkQSize (qRound (wdF sz)) (qRound (htF sz)).

(** ** The objects *)

(** [CutyEnginePage]: the members the overrides read.  [mCutyCapt] records
    whether the pointer is set; [mUserAgent] only feeds the engine profile. *)
Module CutyEnginePage.
Record t : Type := mk {
  mAlertString : string;
  mPrintAlerts : bool;
  mInsecure : bool;
  mCutyCapt : bool
}.
End CutyEnginePage.

(** [QWebEngineCertificateError]: whether the error may be overridden and
    whether [acceptCertificate] has been called on it. *)
Record QWebEngineCertificateError : Type := mkCertError {
  isOverridable : bool;
  accepted : bool
}.

Definition acceptCertificate (error : QWebEngineCertificateError)
  : QWebEngineCertificateError :=
  mkCertError (isOverridable error) true.

(** [CutyPage]: the view with its engine page.  The widget part is Qt's:
    its size, its minimum size, and whether [grab()] currently yields a null
    pixmap. *)
Module CutyPage.
Record t : Type := mk {
  mEnginePage : CutyEnginePage.t;
  size : QSize;
  minimumSize : QSize;
  grabIsNull : bool
}.

Definition getAlertString (p : t) : string :=
  CutyEnginePage.mAlertString (mEnginePage p).

Definition QWIDGETSIZE_MAX : Z := 16777215.

Definition bound (lo hi x : Z) : Z := Z.max lo (Z.min hi x).

(** [QWidget::setMinimumSize]: the minimum is kept within
    [0, QWIDGETSIZE_MAX] and the widget grows to it where it is smaller. *)
Definition setMinimumSize (sz : QSize) (p : t) : t :=
  let mn := mkQSize (bound 0 QWIDGETSIZE_MAX (wd sz))
                    (bound 0 QWIDGETSIZE_MAX (ht sz)) in
  mk (mEnginePage p)
     (mkQSize (Z.max (wd (size p)) (wd mn)) (Z.max (ht (size p)) (ht mn)))
     mn (grabIsNull p).

(** [QWidget::resize]: the requested size, kept within the minimum and
    the maximum size ([main] sets the latter to [QWIDGETSIZE_MAX]). *)
Definition resize (sz : QSize) (p : t) : t :=
  mk (mEnginePage p)
     (mkQSize (bound (wd (minimumSize p)) QWIDGETSIZE_MAX (wd sz))
              (bound (ht (minimumSize p)) QWIDGETSIZE_MAX (ht sz)))
     (minimumSize p) (grabIsNull p).
End CutyPage.

(** [QTimer] as [main] and [saveSnapshot] use [mTimeoutTimer]. *)
Record QTimer : Type := mkQTimer {
  isActive : bool;
  interval : Z
}.

(** The slots a [QTimer::singleShot] of this program targets. *)
Inductive Slot : Type := SlotDelayed.

(** What the process does to the outside, newest first in a trace.
    [SaveSnapshot] marks an entry into [CutyCapt::saveSnapshot] with the
    format, the identifier found in the table and the size it settles on. *)
Inductive Effect : Type :=
| Cerr (msg : string)
| Clog (msg : string)
| QDebug (msg : string)
| SaveSnapshot (fmt : OutputFormat) (format : option string) (sz : QSize)
| SvgRender (out : string) (sz : QSize)
| PrintToPdf (out : string)
| ToPlainText (out : string)
| ToHtml (out : string)
| PixmapSave (out : string) (format : option string)
| ImageSave (out : string) (format : option string) (sz : QSize) (smooth : bool)
| FileWrite (out : string) (content : string)
| AcceptCertificate
| AppExit (code : Z).

(** The whole process: the page, the members of [CutyCapt], and what the
    Qt event loop holds for it (pending single-shot timers, pending script
    and extraction callbacks, print jobs, the requested exit code). *)
Record World : Type := mkWorld {
  mPage : CutyPage.t;
  mOutput : string;
  mDelay : Z;
  mFormat : OutputFormat;
  mSawDocumentComplete : bool;
  mSawGeometryChange : bool;
  mViewSize : QSize;
  mInsecure : bool;
  mSmooth : bool;
  mSilent : bool;
  mTimeoutTimer : QTimer;
  singleShots : list (Z * Slot);
  jsCallbacks : nat;
  pdfJobs : list string;
  textJobs : list string;
  exitCode : option Z;
  trace : list Effect
}.

Definition set_mPage (p : CutyPage.t) (w : World) : World :=
  mkWorld p (mOutput w) (mDelay w) (mFormat w) (mSawDocumentComplete w)
    (mSawGeometryChange w) (mViewSize w) (mInsecure w) (mSmooth w) (mSilent w)
    (mTimeoutTimer w) (singleShots w) (jsCallbacks w) (pdfJobs w) (textJobs w)
    (exitCode w) (trace w).

Definition set_mSawDocumentComplete (b : bool) (w : World) : World :=
  mkWorld (mPage w) (mOutput w) (mDelay w) (mFormat w) b
    (mSawGeometryChange w) (mViewSize w) (mInsecure w) (mSmooth w) (mSilent w)
    (mTimeoutTimer w) (singleShots w) (jsCallbacks w) (pdfJobs w) (textJobs w)
    (exitCode w) (trace w).

Definition set_mSawGeometryChange (b : bool) (w : World) : World :=
  mkWorld (mPage w) (mOutput w) (mDelay w) (mFormat w) (mSawDocumentComplete w)
    b (mViewSize w) (mInsecure w) (mSmooth w) (mSilent w)
    (mTimeoutTimer w) (singleShots w) (jsCallbacks w) (pdfJobs w) (textJobs w)
    (exitCode w) (trace w).

Definition set_mViewSize (sz : QSize) (w : World) : World :=
  mkWorld (mPage w) (mOutput w) (mDelay w) (mFormat w) (mSawDocumentComplete w)
    (mSawGeometryChange w) sz (mInsecure w) (mSmooth w) (mSilent w)
    (mTimeoutTimer w) (singleShots w) (jsCallbacks w) (pdfJobs w) (textJobs w)
    (exitCode w) (trace w).

Definition set_mTimeoutTimer (t : QTimer) (w : World) : World :=
  mkWorld (mPage w) (mOutput w) (mDelay w) (mFormat w) (mSawDocumentComplete w)
    (mSawGeometryChange w) (mViewSize w) (mInsecure w) (mSmooth w) (mSilent w)
    t (singleShots w) (jsCallbacks w) (pdfJobs w) (textJobs w)
    (exitCode w) (trace w).

Definition set_singleShots (l : list (Z * Slot)) (w : World) : World :=
  mkWorld (mPage w) (mOutput w) (mDelay w) (mFormat w) (mSawDocumentComplete w)
    (mSawGeometryChange w) (mViewSize w) (mInsecure w) (mSmooth w) (mSilent w)
    (mTimeoutTimer w) l (jsCallbacks w) (pdfJobs w) (textJobs w)
    (exitCode w) (trace w).

Definition set_jsCallbacks (n : nat) (w : World) : World :=
  mkWorld (mPage w) (mOutput w) (mDelay w) (mFormat w) (mSawDocumentComplete w)
    (mSawGeometryChange w) (mViewSize w) (mInsecure w) (mSmooth w) (mSilent w)
    (mTimeoutTimer w) (singleShots w) n (pdfJobs w) (textJobs w)
    (exitCode w) (trace w).

Definition set_pdfJobs (l : list string) (w : World) : World :=
  mkWorld (mPage w) (mOutput w) (mDelay w) (mFormat w) (mSawDocumentComplete w)
    (mSawGeometryChange w) (mViewSize w) (mInsecure w) (mSmooth w) (mSilent w)
    (mTimeoutTimer w) (singleShots w) (jsCallbacks w) l (textJobs w)
    (exitCode w) (trace w).

Definition set_textJobs (l : list string) (w : World) : World :=
  mkWorld (mPage w) (mOutput w) (mDelay w) (mFormat w) (mSawDocumentComplete w)
    (mSawGeometryChange w) (mViewSize w) (mInsecure w) (mSmooth w) (mSilent w)
    (mTimeoutTimer w) (singleShots w) (jsCallbacks w) (pdfJobs w) l
    (exitCode w) (trace w).

Definition set_exitCode (c : option Z) (w : World) : World :=
  mkWorld (mPage w) (mOutput w) (mDelay w) (mFormat w) (mSawDocumentComplete w)
    (mSawGeometryChange w) (mViewSize w) (mInsecure w) (mSmooth w) (mSilent w)
    (mTimeoutTimer w) (singleShots w) (jsCallbacks w) (pdfJobs w) (textJobs w)
    c (trace w).

(** Append one effect to the trace. *)
Definition emit (e : Effect) (w : World) : World :=
  mkWorld (mPage w) (mOutput w) (mDelay w) (mFormat w) (mSawDocumentComplete w)
    (mSawGeometryChange w) (mViewSize w) (mInsecure w) (mSmooth w) (mSilent w)
    (mTimeoutTimer w) (singleShots w) (jsCallbacks w) (pdfJobs w) (textJobs w)
    (exitCode w) (e :: trace w).

(** [QApplication::exit(code)]: the loop is asked to return [code]. *)
Definition QApplication_exit (code : Z) (w : World) : World :=
  set_exitCode (Some code) (emit (AppExit code) w).

(** [QApplication::quit()] is [exit(0)]. *)
Definition QApplication_quit (w : World) : World := QApplication_exit 0 w.

(** [QTimer::singleShot(msec, receiver, SLOT(...))]. *)
Definition QTimer_singleShot (msec : Z) (slot : Slot) (w : World) : World :=
  set_singleShots (singleShots w ++ [(msec, slot)]) w.

(** ** [CutyEnginePage]: certificate errors and script dialogs *)

(** [CutyEnginePage::handleCertificateError]; the error is returned as the
    handler leaves it. *)
Definition handleCertificateError (page : CutyEnginePage.t)
    (error : QWebEngineCertificateError) : QWebEngineCertificateError :=
  if negb (CutyEnginePage.mInsecure page) then error
  else if isOverridable error then acceptCertificate error
  else error.

(** [CutyEnginePage::javaScriptAlert]. *)
Definition javaScriptAlert (msg : string) (w : World) : World :=
  let page := CutyPage.mEnginePage (mPage w) in
  let w := if CutyEnginePage.mPrintAlerts page
           then emit (QDebug msg) w else w in
  if negb (isEmptyStr (CutyEnginePage.mAlertString page))
     && String.eqb msg (CutyEnginePage.mAlertString page)
     && CutyEnginePage.mCutyCapt page
  then QTimer_singleShot 10 SlotDelayed w
  else w.

(** [CutyEnginePage::javaScriptConfirm]. *)
Definition javaScriptConfirm (securityOrigin msg : string) : bool := true.

(** [CutyEnginePage::javaScriptPrompt].  [result] is the string behind the
    out-pointer, [None] for a null pointer; the second component is that
    string when the function returns. *)
Definition javaScriptPrompt (securityOrigin msg defaultValue : string)
    (result : option string) : bool * option string :=
  (true, match result with
         | Some _ => Some EmptyString
         | None => None
         end).

(** ** [CutyCapt]: the slots *)

(** [CutyCapt::saveSnapshot]. *)
Definition saveSnapshot (w : World) : World :=
  let format := lookupIdentifier (upToSentinel CutyExtMap) (mFormat w) in
  let out := mOutput w in
  let w := set_mTimeoutTimer (mkQTimer false (interval (mTimeoutTimer w))) w in
  let w := if isEmpty (mViewSize w)
           then set_mViewSize (CutyPage.size (mPage w)) w else w in
  let w := if isEmpty (mViewSize w)
           then set_mViewSize (mkQSize 800 600) w else w in
  let w := emit (SaveSnapshot (mFormat w) format (mViewSize w)) w in
  match mFormat w with
  | SvgFormat =>
      QApplication_quit (emit (SvgRender out (mViewSize w)) w)
  | PdfFormat | PsFormat =>
      set_pdfJobs (pdfJobs w ++ [out]) (emit (PrintToPdf out) w)
  | InnerTextFormat =>
      set_textJobs (textJobs w ++ [out]) (emit (ToPlainText out) w)
  | HtmlFormat =>
      set_textJobs (textJobs w ++ [out]) (emit (ToHtml out) w)
  | _ =>
      let w := if CutyPage.grabIsNull (mPage w)
               then emit (ImageSave out format (mViewSize w) (mSmooth w)) w
               else emit (PixmapSave out format) w in
      QApplication_quit w
  end.

(** The callback [saveSnapshot] hands to [toPlainText] / [toHtml], with the
    path it captured; [openOk] is what [QFile::open] returns. *)
Definition extractionCallback (out result : string) (openOk : bool)
    (w : World) : World :=
  let w := if openOk then emit (FileWrite out result) w else w in
  QApplication_quit w.

(** [CutyCapt::TryDelayedRender]. *)
Definition TryDelayedRender (w : World) : World :=
  if negb (isEmptyStr (CutyPage.getAlertString (mPage w))) then w
  else if mDelay w >? 0 then QTimer_singleShot (mDelay w) SlotDelayed w
  else saveSnapshot w.

(** The callback [updateViewportToContentThenMaybeCapture] hands to
    [runJavaScript]; [w0] and [h] are [m.value("width").toInt()] and
    [m.value("height").toInt()], 0 when the query gave nothing. *)
Definition viewportCallback (w0 h : Z) (w : World) : World :=
  let w :=
    if (w0 >? 0) && (h >? 0) then
      let w := set_mViewSize (mkQSize w0 h) w in
      let w := set_mPage (CutyPage.setMinimumSize (mViewSize w) (mPage w)) w in
      let w := set_mPage (CutyPage.resize (mViewSize w) (mPage w)) w in
      set_mSawGeometryChange true w
    else
      let w := set_mViewSize (CutyPage.size (mPage w)) w in
      set_mSawGeometryChange (negb (isEmpty (mViewSize w))) w in
  if mSawDocumentComplete w && mSawGeometryChange w
  then TryDelayedRender w else w.

(** [CutyCapt::updateViewportToContentThenMaybeCapture]: unless an alert is
    expected, the size query is sent and its callback is pending. *)
Definition updateViewportToContentThenMaybeCapture (w : World) : World :=
  if negb (isEmptyStr (CutyPage.getAlertString (mPage w))) then w
  else set_jsCallbacks (S (jsCallbacks w)) w.

(** [CutyCapt::DocumentComplete]. *)
Definition DocumentComplete (ok : bool) (w : World) : World :=
  if negb (mSilent w) && negb ok then
    QApplication_exit 1
      (emit (Cerr "WebEngine failed to completely load url") w)
  else
    let w := if negb (mSilent w)
             then emit (Cerr "WebEngine finished loadFinished(true)") w
             else w in
    let w := set_mSawDocumentComplete true w in
    updateViewportToContentThenMaybeCapture w.

(** [CutyCapt::Timeout]. *)
Definition Timeout (w : World) : World :=
  let w := if negb (mSilent w) then emit (Clog "Timeout reached") w else w in
  saveSnapshot w.

(** [CutyCapt::Delayed]. *)
Definition Delayed (w : World) : World := saveSnapshot w.

(** [CutyCapt::onContentsSizeChanged]. *)
Definition onContentsSizeChanged (sz : QSizeF) (w : World) : World :=
  let w := if negb (mSilent w) then emit (Clog "contentsSizeChanged") w
           else w in
  if Qgt0 (wdF sz) && Qgt0 (htF sz)
  then set_mSawGeometryChange true (set_mViewSize (toSize sz) w)
  else w.

(** [CutyCapt::pdfPrintFinish]. *)
Definition pdfPrintFinish (file : string) (success : bool) (w : World)
  : World :=
  if negb success && negb (mSilent w) then
    QApplication_exit 1 (emit (Cerr "Failed to print page to PDF") w)
  else QApplication_quit w.

(** ** The event loop *)

(** What Qt can deliver to the process while [app.exec()] runs. *)
Inductive Event : Type :=
| LoadFinished (ok : bool)
| ContentsSizeChanged (sz : QSizeF)
| JavaScriptResult (width height : Z)
| Alert (msg : string)
| Confirm (msg : string)
| Prompt (msg defaultValue : string)
| CertificateError (overridable : bool)
| SingleShotElapsed (n : nat)
| TimeoutElapsed
| PdfPrintingFinished (success : bool)
| ExtractionFinished (result : string) (openOk : bool).

(** The list without its [n]-th element. *)
Fixpoint removeNth {A : Type} (n : nat) (l : list A) : list A :=
  match l, n with
  | [], _ => []
  | _ :: r, O => r
  | x :: r, S n' => x :: removeNth n' r
  end.

(** One delivery: the connected slot or override runs.  [None] when Qt has
    nothing of the kind to deliver: no such pending timer, a stopped or
    unstarted timeout timer, no pending callback or print job. *)
Definition dispatch (e : Event) (w : World) : option World :=
  match e with
  | LoadFinished ok => Some (DocumentComplete ok w)
  | ContentsSizeChanged sz => Some (onContentsSizeChanged sz w)
  | JavaScriptResult width height =>
      match jsCallbacks w with
      | O => None
      | S n => Some (viewportCallback width height (set_jsCallbacks n w))
      end
  | Alert msg => Some (javaScriptAlert msg w)
  | Confirm msg => Some w
  | Prompt msg defaultValue => Some w
  | CertificateError overridable =>
      let error := handleCertificateError (CutyPage.mEnginePage (mPage w))
                     (mkCertError overridable false) in
      Some (if accepted error then emit AcceptCertificate w else w)
  | SingleShotElapsed n =>
      match nth_error (singleShots w) n with
      | Some (_, SlotDelayed) =>
          Some (Delayed (set_singleShots (removeNth n (singleShots w)) w))
      | None => None
      end
  | TimeoutElapsed =>
      if isActive (mTimeoutTimer w) then
        Some (Timeout (set_mTimeoutTimer
                         (mkQTimer false (interval (mTimeoutTimer w))) w))
      else None
  | PdfPrintingFinished success =>
      match pdfJobs w with
      | [] => None
      | file :: rest => Some (pdfPrintFinish file success (set_pdfJobs rest w))
      end
  | ExtractionFinished result openOk =>
      match textJobs w with
      | [] => None
      | out :: rest =>
          Some (extractionCallback out result openOk (set_textJobs rest w))
      end
  end.

(** [app.exec()] over the events Qt delivers before it returns, in order;
    an event Qt cannot deliver is passed over.  [QApplication::exit] and
    [quit] only flag the loop: what is already due is still delivered, so
    an exit request stops nothing here, and how much follows it is for the
    list to say.  The code returned is the one requested last. *)
Fixpoint exec (w : World) (events : list Event) : World :=
  match events with
  | [] => w
  | e :: rest =>
      match dispatch e w with
      | Some w' => exec w' rest
      | None => exec w rest
      end
  end.

(** How often [saveSnapshot] has been entered. *)
Definition isSaveSnapshot (e : Effect) : bool :=
  match e with
  | SaveSnapshot _ _ _ => true
  | _ => false
  end.

Definition captures (w : World) : nat :=
  List.length (filter isSaveSnapshot (trace w)).

(** ** [main]: the command line *)

(** The locals of [main] that the argument loop writes, with the [page]
    object it configures on the way.  Engine settings, zoom, user agent,
    application name, request body and headers configure Qt only and are
    not kept. *)
Record Args : Type := mkArgs {
  argHelp : bool;
  argDelay : Z;
  argSilent : bool;
  argInsecure : bool;
  argMinWidth : Z;
  argMinHeight : Z;
  argMaxWait : Z;
  argSmooth : bool;
  argUrl : option string;
  argOut : string;
  format : OutputFormat;
  page : CutyPage.t
}.

Definition set_argHelp (b : bool) (a : Args) : Args :=
  mkArgs b (argDelay a) (argSilent a) (argInsecure a) (argMinWidth a)
    (argMinHeight a) (argMaxWait a) (argSmooth a) (argUrl a) (argOut a)
    (format a) (page a).

Definition set_argDelay (z : Z) (a : Args) : Args :=
  mkArgs (argHelp a) z (argSilent a) (argInsecure a) (argMinWidth a)
    (argMinHeight a) (argMaxWait a) (argSmooth a) (argUrl a) (argOut a)
    (format a) (page a).

Definition set_argSilent (b : bool) (a : Args) : Args :=
  mkArgs (argHelp a) (argDelay a) b (argInsecure a) (argMinWidth a)
    (argMinHeight a) (argMaxWait a) (argSmooth a) (argUrl a) (argOut a)
    (format a) (page a).

Definition set_argInsecure (b : bool) (a : Args) : Args :=
  mkArgs (argHelp a) (argDelay a) (argSilent a) b (argMinWidth a)
    (argMinHeight a) (argMaxWait a) (argSmooth a) (argUrl a) (argOut a)
    (format a) (page a).

Definition set_argMinWidth (z : Z) (a : Args) : Args :=
  mkArgs (argHelp a) (argDelay a) (argSilent a) (argInsecure a) z
    (argMinHeight a) (argMaxWait a) (argSmooth a) (argUrl a) (argOut a)
    (format a) (page a).

Definition set_argMinHeight (z : Z) (a : Args) : Args :=
  mkArgs (argHelp a) (argDelay a) (argSilent a) (argInsecure a) (argMinWidth a)
    z (argMaxWait a) (argSmooth a) (argUrl a) (argOut a)
    (format a) (page a).

Definition set_argMaxWait (z : Z) (a : Args) : Args :=
  mkArgs (argHelp a) (argDelay a) (argSilent a) (argInsecure a) (argMinWidth a)
    (argMinHeight a) z (argSmooth a) (argUrl a) (argOut a)
    (format a) (page a).

Definition set_argSmooth (b : bool) (a : Args) : Args :=
  mkArgs (argHelp a) (argDelay a) (argSilent a) (argInsecure a) (argMinWidth a)
    (argMinHeight a) (argMaxWait a) b (argUrl a) (argOut a)
    (format a) (page a).

Definition set_argUrl (u : option string) (a : Args) : Args :=
  mkArgs (argHelp a) (argDelay a) (argSilent a) (argInsecure a) (argMinWidth a)
    (argMinHeight a) (argMaxWait a) (argSmooth a) u (argOut a)
    (format a) (page a).

Definition set_argOut (o : string) (a : Args) : Args :=
  mkArgs (argHelp a) (argDelay a) (argSilent a) (argInsecure a) (argMinWidth a)
    (argMinHeight a) (argMaxWait a) (argSmooth a) (argUrl a) o
    (format a) (page a).

Definition set_format (f : OutputFormat) (a : Args) : Args :=
  mkArgs (argHelp a) (argDelay a) (argSilent a) (argInsecure a) (argMinWidth a)
    (argMinHeight a) (argMaxWait a) (argSmooth a) (argUrl a) (argOut a)
    f (page a).

Definition set_page (p : CutyPage.t) (a : Args) : Args :=
  mkArgs (argHelp a) (argDelay a) (argSilent a) (argInsecure a) (argMinWidth a)
    (argMinHeight a) (argMaxWait a) (argSmooth a) (argUrl a) (argOut a)
    (format a) p.

(** The setters of [CutyPage] forward to the engine page. *)
Definition setAlertString (alertString : string) (p : CutyPage.t)
  : CutyPage.t :=
  let e := CutyPage.mEnginePage p in
  CutyPage.mk
    (CutyEnginePage.mk alertString (CutyEnginePage.mPrintAlerts e)
       (CutyEnginePage.mInsecure e) (CutyEnginePage.mCutyCapt e))
    (CutyPage.size p) (CutyPage.minimumSize p) (CutyPage.grabIsNull p).

Definition setPrintAlerts (printAlerts : bool) (p : CutyPage.t) : CutyPage.t :=
  let e := CutyPage.mEnginePage p in
  CutyPage.mk
    (CutyEnginePage.mk (CutyEnginePage.mAlertString e) printAlerts
       (CutyEnginePage.mInsecure e) (CutyEnginePage.mCutyCapt e))
    (CutyPage.size p) (CutyPage.minimumSize p) (CutyPage.grabIsNull p).

Definition setInsecure (insecure : bool) (p : CutyPage.t) : CutyPage.t :=
  let e := CutyPage.mEnginePage p in
  CutyPage.mk
    (CutyEnginePage.mk (CutyEnginePage.mAlertString e)
       (CutyEnginePage.mPrintAlerts e) insecure (CutyEnginePage.mCutyCapt e))
    (CutyPage.size p) (CutyPage.minimumSize p) (CutyPage.grabIsNull p).

(** [setCutyCapt(this)]: the pointer is set. *)
Definition setCutyCapt (p : CutyPage.t) : CutyPage.t :=
  let e := CutyPage.mEnginePage p in
  CutyPage.mk
    (CutyEnginePage.mk (CutyEnginePage.mAlertString e)
       (CutyEnginePage.mPrintAlerts e) (CutyEnginePage.mInsecure e) true)
    (CutyPage.size p) (CutyPage.minimumSize p) (CutyPage.grabIsNull p).

(** The loop of the [--out] branch: every entry before the sentinel whose
    extension ends the path overwrites [format], so the last one wins. *)
Fixpoint inferFormat (tbl : list _CutyExtMap) (argOut : string)
    (format : OutputFormat) : OutputFormat :=
  match tbl with
  | [] => format
  | e :: rest =>
      inferFormat rest argOut
        (if endsWith argOut (extension e) then id e else format)
  end.

(** The loop of the [--out-format] branch. *)
Fixpoint overrideFormat (tbl : list _CutyExtMap) (value : string)
    (format : OutputFormat) : OutputFormat :=
  match tbl with
  | [] => format
  | e :: rest =>
      overrideFormat rest value
        (if strcmp0 value (identifier e) then id e else format)
  end.

(** The body of the argument loop for [argv[ax] = s]; the boolean is
    whether the iteration ends in [break]. *)
Definition parseArg (s : string) (a : Args) : Args * bool :=
  if strcmp0 "--silent" s then (set_argSilent true a, false)
  else if strcmp0 "--help" s then (set_argHelp true a, true)
  else if strcmp0 "--insecure" s then (set_argInsecure true a, false)
  else if strcmp0 "--smooth" s then (set_argSmooth true a, false)
  else if strcmp0 "--debug-print-alerts" s
  then (set_page (setPrintAlerts true (page a)) a, false)
  else
    match strchr s "="%char with
    | None => (set_argHelp true a, true)
    | Some (nlen, p) =>
        let value := next p in
        if strncmp0 "--url" s nlen then (set_argUrl (Some value) a, false)
        else if strncmp0 "--min-width" s nlen
        then (set_argMinWidth (to_int32 (strtol value)) a, false)
        else if strncmp0 "--min-height" s nlen
        then (set_argMinHeight (to_int32 (strtol value)) a, false)
        else if strncmp0 "--delay" s nlen
        then (set_argDelay (to_int32 (strtol value)) a, false)
        else if strncmp0 "--max-wait" s nlen
        then (set_argMaxWait (to_uint32 (strtol value)) a, false)
        else if strncmp0 "--out" s nlen then
          let a := set_argOut value a in
          if format_eqb (format a) OtherFormat
          then (set_format
                  (inferFormat (upToSentinel CutyExtMap) (argOut a) (format a))
                  a, false)
          else (a, false)
        else if strncmp0 "--auto-load-images" s nlen then (a, false)
        else if strncmp0 "--javascript" s nlen then (a, false)
        else if strncmp0 "--plugins" s nlen then (a, false)
        else if strncmp0 "--js-can-open-windows" s nlen then (a, false)
        else if strncmp0 "--js-can-access-clipboard" s nlen then (a, false)
        else if strncmp0 "--print-backgrounds" s nlen then (a, false)
        else if strncmp0 "--zoom-factor" s nlen then (a, false)
        else if strncmp0 "--app-name" s nlen then (a, false)
        else if strncmp0 "--app-version" s nlen then (a, false)
        else if strncmp0 "--body-base64" s nlen then (a, false)
        else if strncmp0 "--body-string" s nlen then (a, false)
        else if strncmp0 "--user-agent" s nlen then (a, false)
        else if strncmp0 "--out-format" s nlen then
          let a := set_format
                     (overrideFormat (upToSentinel CutyExtMap) value (format a))
                     a in
          if format_eqb (format a) OtherFormat
          then (set_argHelp true a, true)
          else (a, false)
        else if strncmp0 "--header" s nlen then
          match strchr value ":"%char with
          | None => (set_argHelp true a, true)
          | Some _ => (a, false)
          end
        else if strncmp0 "--inject-script" s nlen then (a, false)
        else if strncmp0 "--script-object" s nlen then (a, false)
        else if strncmp0 "--expect-alert" s nlen
        then (set_page (setAlertString value (page a)) a, false)
        else (set_argHelp true a, false)
    end.

(** [for (int ax = 1; ax < argc; ++ax)] over [argv[1..]]. *)
Fixpoint parseArgs (args : list string) (a : Args) : Args :=
  match args with
  | [] => a
  | s :: rest =>
      let '(a', stop) := parseArg s a in
      if stop then a' else parseArgs rest a'
  end.

(** [CutyPage page;] before any argument is read: a fresh engine page and
    Qt's default widget geometry.  [grabNull] is whether the platform's
    [grab()] gives a null pixmap. *)
Definition newCutyPage (grabNull : bool) : CutyPage.t :=
  CutyPage.mk (CutyEnginePage.mk "" false false false)
    (mkQSize 640 480) (mkQSize 0 0) grabNull.

(** The initial values of the locals. *)
Definition initialArgs (grabNull : bool) : Args :=
  mkArgs false 0 false false 800 600 90000 false None "" OtherFormat
    (newCutyPage grabNull).

(** The [CutyCapt] constructor, as [main] calls it. *)
Definition newCutyCapt (page : CutyPage.t) (output : string) (delay : Z)
    (format : OutputFormat) (insecure smooth silent : bool) : World :=
  mkWorld (setInsecure insecure (setCutyCapt page)) output delay format
    false false QSize_null insecure smooth silent (mkQTimer false 0)
    [] O [] [] None [].

(** [main] after the argument check, up to [page.load(req)]. *)
Definition startup (a : Args) : World :=
  let w := newCutyCapt (page a) (argOut a) (argDelay a) (format a)
             (argInsecure a) (argSmooth a) (argSilent a) in
  let w := if argMaxWait a >? 0
           then set_mTimeoutTimer (mkQTimer true (to_int32 (argMaxWait a))) w
           else w in
  let argSize := mkQSize (argMinWidth a) (argMinHeight a) in
  let w := set_mPage (CutyPage.setMinimumSize argSize (mPage w)) w in
  set_mPage (CutyPage.resize argSize (mPage w)) w.

Definition EXIT_FAILURE : Z := 1.

(** How [main] goes on after the command line: it prints the help text and
    returns [EXIT_FAILURE], or it loads the request and enters [app.exec()]
    in the given world. *)
Inductive Started : Type :=
| Help
| Running (w : World).

(** [main] up to [app.exec()].  [argv] is the vector the argument loop
    reads, that is, as the constructor of [QApplication] has left it: Qt
    takes the options it knows, with their values, out of [argv] before
    the loop starts. *)
Definition main_setup (grabNull : bool) (argv : list string) : Started :=
  let a := parseArgs (tl argv) (initialArgs grabNull) in
  match argUrl a with
  | None => Help
  | Some _ =>
      if isEmptyStr (argOut a) || argHelp a then Help
      else Running (startup a)
  end.

(** [main]: the value the process returns, when it returns.  [argv] is as
    for [main_setup]; [events] is what Qt delivers during [app.exec()];
    [None] when no exit has been requested by the end of them. *)
Definition main (grabNull : bool) (argv : list string) (events : list Event)
  : option Z :=
  match main_setup grabNull argv with
  | Help => Some EXIT_FAILURE
  | Running w => exitCode (exec w events)
  end.

(** The process from the command line as typed.  [QApplication_argv] is
    Qt's part, whatever it may be: what the constructor of [QApplication]
    leaves of the command line for the loop of [main]. *)
Definition cutycapt (QApplication_argv : list string -> list string)
    (grabNull : bool) (commandLine : list string) (events : list Event)
  : option Z :=
  main grabNull (QApplication_argv commandLine) events.

(** ** Engine settings on the command line *)










(** ** Vocabulary of the statements *)

(** The formats whose branch of [saveSnapshot] ends in [QApplication::quit()]
    itself: everything but PDF, PS, inner text and HTML. *)
Definition quitsInline (f : OutputFormat) : bool :=
  match f with
  | PdfFormat | PsFormat | InnerTextFormat | HtmlFormat => false
  | _ => true
  end.

(** The sizes [saveSnapshot] was entered with, newest first. *)
Fixpoint snapshotSizesOf (tr : list Effect) : list QSize :=
  match tr with
  | [] => []
  | SaveSnapshot _ _ sz :: rest => sz :: snapshotSizesOf rest
  | _ :: rest => snapshotSizesOf rest
  end.

Definition snapshotSizes (w : World) : list QSize := snapshotSizesOf (trace w).

(** The first half of the size callback: the view size and the geometry
    flag it sets before deciding about the render. *)
Definition sizeUpdate (w0 h : Z) (w : World) : World :=
  if (w0 >? 0) && (h >? 0) then
    let w := set_mViewSize (mkQSize w0 h) w in
    let w := set_mPage (CutyPage.setMinimumSize (mViewSize w) (mPage w)) w in
    let w := set_mPage (CutyPage.resize (mViewSize w) (mPage w)) w in
    set_mSawGeometryChange true w
  else
    let w := set_mViewSize (CutyPage.size (mPage w)) w in
    set_mSawGeometryChange (negb (isEmpty (mViewSize w))) w.

(** What no slot ever changes. *)
Definition frame (w w' : World) : Prop :=
  mFormat w' = mFormat w /\
  CutyPage.mEnginePage (mPage w') = CutyPage.mEnginePage (mPage w) /\
  mDelay w' = mDelay w.

(** A delivery that does not enter [saveSnapshot]. *)
Definition quiet (w w' : World) : Prop :=
  captures w' = captures w /\ mTimeoutTimer w' = mTimeoutTimer w.

(** A delivery that enters [saveSnapshot] once. *)
Definition shot (w w' : World) : Prop :=
  captures w' = S (captures w) /\
  isActive (mTimeoutTimer w') = false /\
  exitCode w' = if quitsInline (mFormat w) then Some 0 else exitCode w.

(** What [exec] maintains from a world that has not captured: the format
    is kept and a capture has stopped the timeout timer. *)
Definition once (f : OutputFormat) (w : World) : Prop :=
  mFormat w = f /\
  ((1 <= captures w)%nat -> isActive (mTimeoutTimer w) = false).

(** The events that are neither an elapsed timer nor an alert with the
    message [alert]: loads, geometry changes, size query results, other
    dialogs, certificate errors and completions. *)
Definition passive (alert : string) (e : Event) : bool :=
  match e with
  | SingleShotElapsed _ | TimeoutElapsed => false
  | Alert msg => negb (String.eqb msg alert)
  | _ => true
  end.

(** The argument loop over a prefix of the command line that it gets
    through without [break]. *)
Fixpoint parsePrefix (args : list string) (a : Args) : option Args :=
  match args with
  | [] => Some a
  | s :: rest =>
      let '(a', stop) := parseArg s a in
      if stop then None else parsePrefix rest a'
  end.



(** What [main] fixes for the run: the constructor arguments of [CutyCapt]
    and the engine page with its alert string and flags. *)
Definition config (w : World)
  : string * Z * OutputFormat * bool * bool * bool * CutyEnginePage.t :=
  (mOutput w, mDelay w, mFormat w, mInsecure w, mSmooth w, mSilent w,
   CutyPage.mEnginePage (mPage w)).

(** [v] comes from [w] without entering [saveSnapshot]: same configuration
    and same captures, the timeout timer not started, the load flag not
    cleared, no job added, and the exit code either kept, or 1 when not
    silent, or 0 on the completion of a pending job. *)
Definition calm (w v : World) : Prop :=
  config v = config w /\
  captures v = captures w /\
  snapshotSizes v = snapshotSizes w /\
  (isActive (mTimeoutTimer v) = true -> isActive (mTimeoutTimer w) = true) /\
  (mSawDocumentComplete w = true -> mSawDocumentComplete v = true) /\
  (pdfJobs v <> [] -> pdfJobs w <> []) /\
  (textJobs v <> [] -> textJobs w <> []) /\
  (exitCode v = exitCode w \/
   (exitCode v = Some 1 /\ mSilent w = false) \/
   (exitCode v = Some 0 /\ (pdfJobs w <> [] \/ textJobs w <> []))).

(** The raster formats of the table. *)
Definition isRaster (f : OutputFormat) : bool :=
  match f with
  | PngFormat | JpegFormat | MngFormat | TiffFormat | GifFormat
  | BmpFormat | PpmFormat | XbmFormat | XpmFormat => true
  | _ => false
  end.

(** How often the timeout notice has been written to the log. *)
Definition isTimeoutNotice (e : Effect) : bool :=
  match e with
  | Clog msg => String.eqb msg "Timeout reached"
  | _ => false
  end.

Definition timeoutNotices (w : World) : nat :=
  List.length (filter isTimeoutNotice (trace w)).





(** A stand-in for Qt in the examples: a [QApplication] that knows the one
    option [-style] and takes it out of the command line with its value. *)
Fixpoint withoutStyleOption (commandLine : list string) : list string :=
  match commandLine with
  | [] => []
  | s :: rest =>
      if String.eqb s "-style" then
        match rest with
        | [] => []
        | _ :: rest' => withoutStyleOption rest'
        end
      else s :: withoutStyleOption rest
  end.

(** * Properties *)

Lemma format_eqb_eq (a b : OutputFormat) : format_eqb a b = true <-> a = b.
Proof.
  unfold format_eqb; destruct (OutputFormat_eq_dec a b); split; congruence.
Qed.


Ltac break_if :=
  match goal with
  | |- context [if ?c then _ else _] => destruct c eqn:?
  end.

Ltac split_all := repeat match goal with |- _ /\ _ => split end.

(** ** What [saveSnapshot] leaves behind *)

Lemma saveSnapshot_captures (w : World) :
  captures (saveSnapshot w) = S (captures w).
Proof.
  unfold saveSnapshot, captures; destruct w as [p o d f dc gc vs i sm si t ss js pj tj ec tr].
  cbn. repeat (break_if; cbn); destruct f; cbn; repeat (break_if; cbn);
    reflexivity.
Qed.

Lemma saveSnapshot_stops_timer (w : World) :
  isActive (mTimeoutTimer (saveSnapshot w)) = false.
Proof.
  unfold saveSnapshot; destruct w as [p o d f dc gc vs i sm si t ss js pj tj ec tr].
  cbn. repeat (break_if; cbn); destruct f; cbn; repeat (break_if; cbn);
    reflexivity.
Qed.

Lemma saveSnapshot_frame (w : World) :
  mFormat (saveSnapshot w) = mFormat w /\
  mPage (saveSnapshot w) = mPage w /\
  singleShots (saveSnapshot w) = singleShots w /\
  jsCallbacks (saveSnapshot w) = jsCallbacks w /\
  mDelay (saveSnapshot w) = mDelay w /\
  mSilent (saveSnapshot w) = mSilent w /\
  mSawDocumentComplete (saveSnapshot w) = mSawDocumentComplete w /\
  mSawGeometryChange (saveSnapshot w) = mSawGeometryChange w.
Proof.
  unfold saveSnapshot; destruct w as [p o d f dc gc vs i sm si t ss js pj tj ec tr].
  cbn. repeat (break_if; cbn); destruct f; cbn; repeat (break_if; cbn);
    split_all; reflexivity.
Qed.

Lemma saveSnapshot_exitCode (w : World) :
  exitCode (saveSnapshot w) =
  if quitsInline (mFormat w) then Some 0 else exitCode w.
Proof.
  unfold saveSnapshot; destruct w as [p o d f dc gc vs i sm si t ss js pj tj ec tr].
  cbn. repeat (break_if; cbn); destruct f; cbn in *; repeat (break_if; cbn);
    congruence.
Qed.

(** The size [saveSnapshot] settles on: the size known so far, else the
    widget's, else 800 by 600. *)
Lemma saveSnapshot_viewSize (w : World) :
  mViewSize (saveSnapshot w) =
  if isEmpty (mViewSize w)
  then if isEmpty (CutyPage.size (mPage w))
       then mkQSize 800 600 else CutyPage.size (mPage w)
  else mViewSize w.
Proof.
  unfold saveSnapshot; destruct w as [p o d f dc gc vs i sm si t ss js pj tj ec tr].
  cbn. destruct (isEmpty vs) eqn:E1; cbn.
  - destruct (isEmpty (CutyPage.size p)) eqn:E2; cbn;
      destruct f; cbn; repeat (break_if; cbn); reflexivity.
  - rewrite E1; destruct f; cbn; repeat (break_if; cbn); reflexivity.
Qed.

Lemma saveSnapshot_snapshotSizes (w : World) :
  snapshotSizes (saveSnapshot w) = mViewSize (saveSnapshot w) :: snapshotSizes w.
Proof.
  unfold saveSnapshot, snapshotSizes;
    destruct w as [p o d f dc gc vs i sm si t ss js pj tj ec tr].
  cbn. repeat (break_if; cbn); destruct f; cbn; repeat (break_if; cbn);
    reflexivity.
Qed.

Lemma nth_error_snoc {A : Type} (l : list A) (x : A) :
  nth_error (l ++ [x]) (List.length l) = Some x.
Proof. induction l as [|y l IH]; cbn; auto. Qed.

Lemma removeNth_snoc {A : Type} (l : list A) (x : A) :
  removeNth (List.length l) (l ++ [x]) = l.
Proof. induction l as [|y l IH]; cbn; [reflexivity | now rewrite IH]. Qed.

(** ** Script dialogs and certificate errors *)

(** C9.  Every confirmation dialog is answered [true] and every prompt
    dialog is answered [true] with the result string set to the empty
    string, whatever the message and the default value; delivering either
    dialog leaves the process as it was, with nothing pending. *)
Theorem script_dialogs_answered_at_once :
  forall (securityOrigin msg defaultValue old : string) (w : World),
    javaScriptConfirm securityOrigin msg = true /\
    javaScriptPrompt securityOrigin msg defaultValue (Some old)
      = (true, Some EmptyString) /\
    dispatch (Confirm msg) w = Some w /\
    dispatch (Prompt msg defaultValue) w = Some w.
Proof. intros; split_all; reflexivity. Qed.

(** C10.  A certificate error is accepted exactly when the page is in
    insecure mode and the error is overridable; in every other case the
    handler returns the error untouched.  The page's insecure flag is the
    one the [CutyCapt] constructor is given. *)
Theorem certificate_accepted_iff_insecure_and_overridable :
  forall (page : CutyEnginePage.t) (overridable : bool),
    let error := mkCertError overridable false in
    (accepted (handleCertificateError page error) = true <->
     CutyEnginePage.mInsecure page = true /\ overridable = true) /\
    (~ (CutyEnginePage.mInsecure page = true /\ overridable = true) ->
     handleCertificateError page error = error) /\
    (forall p output delay fmt insecure smooth silent,
        CutyEnginePage.mInsecure
          (CutyPage.mEnginePage
             (mPage (newCutyCapt p output delay fmt insecure smooth silent)))
        = insecure).
Proof.
  intros page overridable error; subst error.
  unfold handleCertificateError.
  destruct (CutyEnginePage.mInsecure page), overridable; cbn; split_all;
    try reflexivity; try tauto; try (split; [discriminate | intros [? ?]; discriminate]);
    try (intros H; exfalso; apply H; split; reflexivity).
Qed.

Lemma certificate_accepted_iff_insecure_and_overridable_witness :
  accepted (handleCertificateError (CutyEnginePage.mk "" false true true)
              (mkCertError true false)) = true /\
  handleCertificateError (CutyEnginePage.mk "" false false true)
    (mkCertError true false) = mkCertError true false.
Proof.
  split.
  - apply (certificate_accepted_iff_insecure_and_overridable
             (CutyEnginePage.mk "" false true true) true).
    split; reflexivity.
  - apply (certificate_accepted_iff_insecure_and_overridable
             (CutyEnginePage.mk "" false false true) true).
    cbn; intros [H _]; discriminate H.
Defined.

(** ** The text and markup paths *)

(** C8.  In the inner-text and the HTML format [saveSnapshot] leaves the
    exit to the extraction callback; when that callback cannot open the
    target file it writes nothing and still asks for exit status 0. *)
Theorem extraction_open_failure_still_exits_0 :
  forall (w : World) (result : string),
    mFormat w = InnerTextFormat \/ mFormat w = HtmlFormat ->
    exitCode w = None ->
    textJobs w = [] ->
    let w1 := saveSnapshot w in
    let w2 := exec w1 [ExtractionFinished result false] in
    exitCode w1 = None /\
    textJobs w1 = [mOutput w] /\
    exitCode w2 = Some 0 /\
    trace w2 = AppExit 0 :: trace w1.
Proof.
  intros w result Hf He Ht.
  destruct w as [p o d f dc gc vs i sm si t ss js pj tj ec tr].
  cbn in Hf, He, Ht; subst ec tj.
  unfold saveSnapshot; cbn.
  destruct Hf as [-> | ->]; repeat (break_if; cbn); split_all; reflexivity.
Qed.

Lemma extraction_open_failure_still_exits_0_witness :
  exitCode
    (exec (saveSnapshot (newCutyCapt (newCutyPage false) "page.txt" 0
                           InnerTextFormat false false false))
       [ExtractionFinished "text" false]) = Some 0.
Proof.
  apply (extraction_open_failure_still_exits_0
           (newCutyCapt (newCutyPage false) "page.txt" 0 InnerTextFormat
              false false false) "text");
    [left; reflexivity | reflexivity | reflexivity].
Defined.

(** ** Geometry fallback *)


(** ** The delay sub-protocol *)

Lemma viewportCallback_sizeUpdate (w0 h : Z) (w : World) :
  viewportCallback w0 h w =
  let u := sizeUpdate w0 h w in
  if mSawDocumentComplete u && mSawGeometryChange u
  then TryDelayedRender u else u.
Proof. reflexivity. Qed.

Lemma sizeUpdate_frame (w0 h : Z) (w : World) :
  let u := sizeUpdate w0 h w in
  CutyPage.mEnginePage (mPage u) = CutyPage.mEnginePage (mPage w) /\
  mSawDocumentComplete u = mSawDocumentComplete w /\
  mDelay u = mDelay w /\
  mFormat u = mFormat w /\
  singleShots u = singleShots w /\
  mTimeoutTimer u = mTimeoutTimer w /\
  exitCode u = exitCode w /\
  trace u = trace w.
Proof.
  unfold sizeUpdate; destruct ((w0 >? 0) && (h >? 0)); cbn; split_all;
    reflexivity.
Qed.


(** [TryDelayedRender] without an expected alert. *)
Lemma TryDelayedRender_ungated (u : World) :
  CutyPage.getAlertString (mPage u) = "" ->
  TryDelayedRender u =
  if mDelay u >? 0 then QTimer_singleShot (mDelay u) SlotDelayed u
  else saveSnapshot u.
Proof. intros H; unfold TryDelayedRender; now rewrite H. Qed.


(** ** One delivery at a time *)

Lemma saveSnapshot_shot (w v : World) :
  trace v = trace w -> mFormat v = mFormat w -> exitCode v = exitCode w ->
  CutyPage.mEnginePage (mPage v) = CutyPage.mEnginePage (mPage w) ->
  mDelay v = mDelay w ->
  frame w (saveSnapshot v) /\ shot w (saveSnapshot v).
Proof.
  intros Ht Hf He Hp Hd.
  destruct (saveSnapshot_frame v) as (F1 & F2 & _ & _ & F3 & _).
  unfold frame, shot.
  rewrite saveSnapshot_captures, saveSnapshot_stops_timer,
    saveSnapshot_exitCode, F1, F2, F3, Hf, He, Hp, Hd.
  unfold captures; rewrite Ht. split_all; reflexivity.
Qed.

Lemma DocumentComplete_quiet (ok : bool) (w : World) :
  frame w (DocumentComplete ok w) /\ quiet w (DocumentComplete ok w) /\
  singleShots (DocumentComplete ok w) = singleShots w.
Proof.
  destruct w as [p o d f dc gc vs i sm si t ss js pj tj ec tr].
  unfold frame, quiet, DocumentComplete,
    updateViewportToContentThenMaybeCapture, captures.
  cbn. repeat (break_if; cbn); split_all; reflexivity.
Qed.

Lemma onContentsSizeChanged_quiet (sz : QSizeF) (w : World) :
  frame w (onContentsSizeChanged sz w) /\
  quiet w (onContentsSizeChanged sz w) /\
  singleShots (onContentsSizeChanged sz w) = singleShots w.
Proof.
  destruct w as [p o d f dc gc vs i sm si t ss js pj tj ec tr].
  unfold frame, quiet, onContentsSizeChanged, captures.
  cbn. repeat (break_if; cbn); split_all; reflexivity.
Qed.

Lemma javaScriptAlert_quiet (msg : string) (w : World) :
  frame w (javaScriptAlert msg w) /\ quiet w (javaScriptAlert msg w).
Proof.
  destruct w as [p o d f dc gc vs i sm si t ss js pj tj ec tr].
  unfold frame, quiet, javaScriptAlert, captures.
  cbn. repeat (break_if; cbn); split_all; reflexivity.
Qed.

Lemma pdfPrintFinish_quiet (file : string) (success : bool) (w : World) :
  frame w (pdfPrintFinish file success w) /\
  quiet w (pdfPrintFinish file success w) /\
  singleShots (pdfPrintFinish file success w) = singleShots w.
Proof.
  destruct w as [p o d f dc gc vs i sm si t ss js pj tj ec tr].
  unfold frame, quiet, pdfPrintFinish, captures.
  cbn. repeat (break_if; cbn); split_all; reflexivity.
Qed.

Lemma extractionCallback_quiet (out result : string) (openOk : bool)
    (w : World) :
  frame w (extractionCallback out result openOk w) /\
  quiet w (extractionCallback out result openOk w) /\
  singleShots (extractionCallback out result openOk w) = singleShots w.
Proof.
  destruct w as [p o d f dc gc vs i sm si t ss js pj tj ec tr].
  unfold frame, quiet, extractionCallback, captures.
  cbn. repeat (break_if; cbn); split_all; reflexivity.
Qed.

Lemma viewportCallback_quiet_or_shot (w0 h : Z) (w v : World) :
  trace v = trace w -> mFormat v = mFormat w -> exitCode v = exitCode w ->
  CutyPage.mEnginePage (mPage v) = CutyPage.mEnginePage (mPage w) ->
  mDelay v = mDelay w -> mTimeoutTimer v = mTimeoutTimer w ->
  frame w (viewportCallback w0 h v) /\
  (quiet w (viewportCallback w0 h v) \/ shot w (viewportCallback w0 h v)).
Proof.
  intros Ht Hf He Hp Hd Htm.
  rewrite viewportCallback_sizeUpdate.
  pose proof (sizeUpdate_frame w0 h v) as F.
  set (u := sizeUpdate w0 h v) in *. cbv zeta in F |- *.
  destruct F as (Fe & _ & Fdl & Ff & _ & Ftm & Fx & Ftr).
  assert (Q : frame w u /\ quiet w u).
  { unfold frame, quiet, captures.
    rewrite Ff, Fe, Fdl, Ftm, Ftr, Hf, Hp, Hd, Htm, Ht.
    split_all; reflexivity. }
  destruct (mSawDocumentComplete u && mSawGeometryChange u);
    [| split; [apply Q | left; apply Q]].
  unfold TryDelayedRender.
  destruct (negb (isEmptyStr (CutyPage.getAlertString (mPage u))));
    [split; [apply Q | left; apply Q] |].
  destruct (mDelay u >? 0).
  - split; [apply Q | left; apply Q].
  - destruct (saveSnapshot_shot w u) as [A B]; try congruence.
    split; [exact A | right; exact B].
Qed.

(** Every delivery keeps the configuration and enters [saveSnapshot] at
    most once; when it does, the timeout timer is stopped. *)
Lemma dispatch_quiet_or_shot (e : Event) (w w' : World) :
  dispatch e w = Some w' ->
  frame w w' /\
  ((captures w' = captures w /\
    (isActive (mTimeoutTimer w') = true -> isActive (mTimeoutTimer w) = true))
   \/ shot w w').
Proof.
  assert (R : forall a b : World, frame a b /\ quiet a b ->
            frame a b /\
            ((captures b = captures a /\
              (isActive (mTimeoutTimer b) = true ->
               isActive (mTimeoutTimer a) = true)) \/ shot a b)).
  { intros a b (Fr & Hc & Ht). split; [exact Fr | left; split; [exact Hc |]].
    now rewrite Ht. }
  destruct e; cbn [dispatch]; intros H.
  - inversion H; subst. apply R. split; apply DocumentComplete_quiet.
  - inversion H; subst. apply R. split; apply onContentsSizeChanged_quiet.
  - destruct (jsCallbacks w) eqn:E; [discriminate |].
    inversion H; subst.
    destruct (viewportCallback_quiet_or_shot width height w (set_jsCallbacks n w))
      as [A [B | B]]; try reflexivity.
    + apply R; split; assumption.
    + split; [exact A | right; exact B].
  - inversion H; subst. apply R. apply javaScriptAlert_quiet.
  - inversion H; subst. apply R. unfold frame, quiet. split_all; reflexivity.
  - inversion H; subst. apply R. unfold frame, quiet. split_all; reflexivity.
  - inversion H; subst. apply R.
    destruct (accepted _); unfold frame, quiet; split_all; reflexivity.
  - destruct (nth_error (singleShots w) n) as [[ms []] |]; [| discriminate].
    inversion H; subst. unfold Delayed.
    destruct (saveSnapshot_shot w
                (set_singleShots (removeNth n (singleShots w)) w))
      as [A B]; try reflexivity.
    split; [exact A | right; exact B].
  - destruct (isActive (mTimeoutTimer w)); [| discriminate].
    inversion H; subst. unfold Timeout.
    match goal with
    | |- frame w (saveSnapshot ?v) /\ _ =>
        assert (Hv : captures v = captures w /\ mFormat v = mFormat w /\
                     exitCode v = exitCode w /\
                     CutyPage.mEnginePage (mPage v)
                     = CutyPage.mEnginePage (mPage w) /\
                     mDelay v = mDelay w)
          by (destruct (negb (mSilent _)); split_all; reflexivity);
        destruct Hv as (V1 & V2 & V3 & V4 & V5);
        destruct (saveSnapshot_frame v) as (F1 & F2 & _ & _ & F3 & _)
    end.
    unfold frame, shot.
    rewrite saveSnapshot_captures, saveSnapshot_stops_timer,
      saveSnapshot_exitCode, F1, F2, F3, V1, V2, V3, V4, V5.
    split_all; try reflexivity. right. split_all; reflexivity.
  - destruct (pdfJobs w) as [| file rest] eqn:E; [discriminate |].
    inversion H; subst.
    destruct (pdfPrintFinish_quiet file success (set_pdfJobs rest w))
      as (A & B & _).
    apply R. split; [exact A | exact B].
  - destruct (textJobs w) as [| out rest] eqn:E; [discriminate |].
    inversion H; subst.
    destruct (extractionCallback_quiet out result openOk (set_textJobs rest w))
      as (A & B & _).
    apply R. split; [exact A | exact B].
Qed.

(** ** How often a run captures *)

Lemma dispatch_once (f : OutputFormat) (e : Event) (w w' : World) :
  once f w -> dispatch e w = Some w' -> once f w'.
Proof.
  intros (Hf & Ht) Hd.
  destruct (dispatch_quiet_or_shot e w w' Hd)
    as [(Ff & _ & _) [(Hc & Hact) | (Hc & Hoff & Hex)]].
  - unfold once. rewrite Hc, Ff. split_all; auto.
    intros H1. specialize (Ht H1).
    destruct (isActive (mTimeoutTimer w')) eqn:E; [| reflexivity].
    rewrite (Hact eq_refl) in Ht. discriminate Ht.
  - unfold once. rewrite Ff. split_all; auto.
Qed.

Lemma exec_once (f : OutputFormat) (events : list Event) :
  forall w : World, once f w -> once f (exec w events).
Proof.
  induction events as [| e rest IH]; intros w Hw; cbn [exec]; [exact Hw |].
  destruct (dispatch e w) as [w' |] eqn:Hd; [| apply IH; exact Hw].
  apply IH. eapply dispatch_once; eassumption.
Qed.

(** What [main] hands to the event loop. *)
Lemma main_setup_running (grabNull : bool) (argv : list string) (w : World) :
  main_setup grabNull argv = Running w ->
  trace w = [] /\ exitCode w = None /\ singleShots w = [] /\
  jsCallbacks w = O /\ pdfJobs w = [] /\ textJobs w = [] /\
  CutyEnginePage.mCutyCapt (CutyPage.mEnginePage (mPage w)) = true /\
  CutyEnginePage.mInsecure (CutyPage.mEnginePage (mPage w)) = mInsecure w.
Proof.
  unfold main_setup.
  destruct (argUrl _); [| discriminate].
  destruct (_ || _); [discriminate |].
  intros H; inversion H; subst; clear H.
  unfold startup. destruct (argMaxWait _ >? 0); cbn; split_all; reflexivity.
Qed.

(** C1, as the code has it.  There is no captured latch.  In every run:
    once [saveSnapshot] has been entered the timeout timer is stopped and
    its event can no longer be delivered; one delivery enters
    [saveSnapshot] at most once; every elapsed [Delayed] timer enters
    [saveSnapshot], whatever was captured before; and the exit is
    requested inside [saveSnapshot], with status 0, exactly in the formats
    whose branch quits straight away (SVG and the raster formats), the
    other formats leaving it to their completion. *)
Theorem captures_per_run :
  forall (grabNull : bool) (argv : list string) (w : World)
         (events : list Event),
    main_setup grabNull argv = Running w ->
    ((1 <= captures (exec w events))%nat ->
     dispatch TimeoutElapsed (exec w events) = None) /\
    (forall (e : Event) (v v' : World),
        dispatch e v = Some v' -> (captures v' <= S (captures v))%nat) /\
    (forall v : World, captures (Delayed v) = S (captures v)) /\
    (forall v : World,
        exitCode (saveSnapshot v) =
        if quitsInline (mFormat v) then Some 0 else exitCode v).
Proof.
  intros grabNull argv w events Hm.
  destruct (main_setup_running grabNull argv w Hm) as (Htr & Hx & _).
  assert (H0 : once (mFormat w) w).
  { unfold once, captures. rewrite Htr. cbn. split_all; auto.
    intros H; inversion H. }
  destruct (exec_once (mFormat w) events w H0) as (_ & Ht).
  split_all.
  - intros H1. cbn [dispatch]. now rewrite (Ht H1).
  - intros e v v' Hd.
    destruct (dispatch_quiet_or_shot e v v' Hd) as [_ [[Hc _] | [Hc _]]];
      rewrite Hc; auto.
  - intros v. apply saveSnapshot_captures.
  - intros v. apply saveSnapshot_exitCode.
Qed.

Lemma captures_per_run_witness :
  dispatch TimeoutElapsed
    (exec
       (startup
          (parseArgs ["--url=http://a/"; "--out=a.pdf"] (initialArgs false)))
       [LoadFinished true; JavaScriptResult 1024 768]) = None.
Proof.
  destruct (captures_per_run false
              ["cutycapt"; "--url=http://a/"; "--out=a.pdf"]
              (startup
                 (parseArgs ["--url=http://a/"; "--out=a.pdf"]
                    (initialArgs false)))
              [LoadFinished true; JavaScriptResult 1024 768])
    as (Htimeout & _); [reflexivity |].
  apply Htimeout. vm_compute. constructor.
Defined.

(** C1 as stated fails: in the PDF format two matching alerts arm two
    timers, and both enter [saveSnapshot] before any exit is requested. *)
Lemma repeated_alert_captures_twice :
  match main_setup false
          ["cutycapt"; "--url=http://a/"; "--out=a.pdf";
           "--expect-alert=READY"] with
  | Running w =>
      captures
        (exec w [Alert "READY"; Alert "READY";
                 SingleShotElapsed 0; SingleShotElapsed 0]) = 2%nat /\
      exitCode
        (exec w [Alert "READY"; Alert "READY"; SingleShotElapsed 0]) = None
  | Help => False
  end.
Proof. vm_compute. split; reflexivity. Qed.

(** ** Failures reported by the engine *)

(** C2, at the failing input.  With [--silent] a failed load requests no
    exit: the run goes on to the size query and captures, and the process
    ends with status 0.  Without [--silent] the same events end with
    status 1 and nothing captured.  In general [DocumentComplete(false)]
    requests the exit exactly when [mSilent] is off. *)
Theorem silent_load_failure_goes_on_to_capture :
  main false ["cutycapt"; "--url=http://a/"; "--out=a.png"; "--silent"]
    [LoadFinished false; JavaScriptResult 1024 768] = Some 0 /\
  match main_setup false
          ["cutycapt"; "--url=http://a/"; "--out=a.png"; "--silent"] with
  | Running w =>
      exitCode (exec w [LoadFinished false]) = None /\
      captures (exec w [LoadFinished false; JavaScriptResult 1024 768]) = 1%nat
  | Help => False
  end /\
  main false ["cutycapt"; "--url=http://a/"; "--out=a.png"]
    [LoadFinished false; JavaScriptResult 1024 768] = Some 1 /\
  (forall w : World,
      exitCode (DocumentComplete false w) =
      if mSilent w then exitCode w else Some 1).
Proof.
  split_all; try (vm_compute; split_all; reflexivity).
  intros w. destruct w as [p o d f dc gc vs i sm si t ss js pj tj ec tr].
  unfold DocumentComplete, updateViewportToContentThenMaybeCapture.
  cbn. destruct si; cbn; repeat (break_if; cbn); reflexivity.
Qed.

(** C4, at the failing input.  With [--silent] a failed print ends the
    process with status 0; without it the status is 1; a successful print
    gives 0.  In general [pdfPrintFinish] asks for status 1 exactly when
    the print failed and [mSilent] is off. *)
Theorem silent_print_failure_exits_0 :
  main false ["cutycapt"; "--url=http://a/"; "--out=a.pdf"; "--silent"]
    [LoadFinished true; JavaScriptResult 1024 768; PdfPrintingFinished false]
  = Some 0 /\
  main false ["cutycapt"; "--url=http://a/"; "--out=a.pdf"]
    [LoadFinished true; JavaScriptResult 1024 768; PdfPrintingFinished false]
  = Some 1 /\
  main false ["cutycapt"; "--url=http://a/"; "--out=a.pdf"]
    [LoadFinished true; JavaScriptResult 1024 768; PdfPrintingFinished true]
  = Some 0 /\
  (forall (w : World) (file : string) (success : bool),
      exitCode (pdfPrintFinish file success w) =
      Some (if negb success && negb (mSilent w) then 1 else 0)).
Proof.
  split_all; try (vm_compute; reflexivity).
  intros w file success.
  destruct w as [p o d f dc gc vs i sm si t ss js pj tj ec tr].
  unfold pdfPrintFinish. cbn. destruct success, si; reflexivity.
Qed.

(** ** Waiting for the expected alert *)

Lemma TryDelayedRender_gated (u : World) :
  CutyPage.getAlertString (mPage u) <> "" -> TryDelayedRender u = u.
Proof.
  intros H; unfold TryDelayedRender.
  destruct (CutyPage.getAlertString (mPage u)); [contradiction | reflexivity].
Qed.

Lemma javaScriptAlert_singleShots (msg : string) (w : World) :
  singleShots (javaScriptAlert msg w) =
  if negb (isEmptyStr (CutyPage.getAlertString (mPage w)))
     && String.eqb msg (CutyPage.getAlertString (mPage w))
     && CutyEnginePage.mCutyCapt (CutyPage.mEnginePage (mPage w))
  then (singleShots w ++ [(10, SlotDelayed)])%list
  else singleShots w.
Proof.
  destruct w as [p o d f dc gc vs i sm si t ss js pj tj ec tr].
  unfold javaScriptAlert, CutyPage.getAlertString. cbn.
  repeat (break_if; cbn); reflexivity.
Qed.

(** With an expected alert configured, a passive delivery captures nothing
    and arms nothing. *)
Lemma dispatch_passive (e : Event) (w w' : World) :
  CutyPage.getAlertString (mPage w) <> "" ->
  passive (CutyPage.getAlertString (mPage w)) e = true ->
  dispatch e w = Some w' ->
  captures w' = captures w /\ singleShots w' = singleShots w /\
  CutyPage.mEnginePage (mPage w') = CutyPage.mEnginePage (mPage w).
Proof.
  intros Ha Hp Hd.
  destruct e; cbn [dispatch passive] in Hd, Hp; try discriminate Hp.
  - inversion Hd; subst.
    destruct (DocumentComplete_quiet ok w) as ((_ & E & _) & (C & _) & S).
    auto.
  - inversion Hd; subst.
    destruct (onContentsSizeChanged_quiet sz w) as ((_ & E & _) & (C & _) & S).
    auto.
  - destruct (jsCallbacks w) eqn:E; [discriminate |].
    inversion Hd; subst. rewrite viewportCallback_sizeUpdate.
    pose proof (sizeUpdate_frame width height (set_jsCallbacks n w)) as F.
    set (u := sizeUpdate width height (set_jsCallbacks n w)) in *.
    cbv zeta in F |- *.
    destruct F as (Fe & _ & _ & _ & Fss & _ & _ & Ftr).
    assert (Hu : CutyPage.getAlertString (mPage u) <> "").
    { unfold CutyPage.getAlertString in *. rewrite Fe. exact Ha. }
    rewrite (TryDelayedRender_gated u Hu).
    destruct (_ && _); unfold captures; rewrite Ftr, Fss, Fe;
      split_all; reflexivity.
  - inversion Hd; subst.
    destruct (javaScriptAlert_quiet msg w) as ((_ & E & _) & (C & _)).
    split_all; auto.
    rewrite javaScriptAlert_singleShots.
    apply negb_true_iff in Hp. rewrite Hp, andb_false_r. reflexivity.
  - inversion Hd; subst. auto.
  - inversion Hd; subst. auto.
  - inversion Hd; subst. destruct (accepted _); split_all; reflexivity.
  - destruct (pdfJobs w) as [| file rest] eqn:E; [discriminate |].
    inversion Hd; subst.
    destruct (pdfPrintFinish_quiet file success (set_pdfJobs rest w))
      as ((_ & A & _) & (B & _) & C).
    auto.
  - destruct (textJobs w) as [| out rest] eqn:E; [discriminate |].
    inversion Hd; subst.
    destruct (extractionCallback_quiet out result openOk (set_textJobs rest w))
      as ((_ & A & _) & (B & _) & C).
    auto.
Qed.

Lemma exec_passive (alert : string) (events : list Event) :
  forall w : World,
    CutyPage.getAlertString (mPage w) = alert -> alert <> "" ->
    Forall (fun e => passive alert e = true) events ->
    captures (exec w events) = captures w /\
    singleShots (exec w events) = singleShots w.
Proof.
  induction events as [| e rest IH]; intros w Ha Hne Hall; cbn [exec];
    [split; reflexivity |].
  inversion Hall as [| ? ? He Hrest]; subst.
  destruct (dispatch e w) as [w' |] eqn:Hd; [| apply IH; auto].
  destruct (dispatch_passive e w w' Hne He Hd) as (Hc & Hs & Hp).
  destruct (IH w') as [A B]; auto.
  - unfold CutyPage.getAlertString. now rewrite Hp.
  - rewrite A, B, Hc, Hs. split; reflexivity.
Qed.

(** C3.  With an expected alert configured: however many load, geometry
    and size query events are delivered (and any other event that is not
    an elapsed timer or the matching alert), nothing is captured and no
    capture is scheduled; an alert whose message is exactly the configured
    string arms one single-shot timer of 10 ms for [Delayed] and captures
    nothing yet; when that timer elapses [saveSnapshot] is entered, once,
    and the timer is gone; an alert with any other message arms nothing;
    and no other delivery ever adds a pending timer. *)
Theorem only_the_expected_alert_schedules_a_capture :
  forall (w : World) (alert : string),
    CutyPage.getAlertString (mPage w) = alert ->
    alert <> "" ->
    CutyEnginePage.mCutyCapt (CutyPage.mEnginePage (mPage w)) = true ->
    (forall events : list Event,
        Forall (fun e => passive alert e = true) events ->
        captures (exec w events) = captures w /\
        singleShots (exec w events) = singleShots w) /\
    (captures (javaScriptAlert alert w) = captures w /\
     singleShots (javaScriptAlert alert w)
     = (singleShots w ++ [(10, SlotDelayed)])%list) /\
    (exists w2 : World,
        dispatch (SingleShotElapsed (List.length (singleShots w)))
          (javaScriptAlert alert w) = Some w2 /\
        captures w2 = S (captures w) /\
        singleShots w2 = singleShots w /\
        isActive (mTimeoutTimer w2) = false) /\
    (forall msg : string,
        msg <> alert ->
        captures (javaScriptAlert msg w) = captures w /\
        singleShots (javaScriptAlert msg w) = singleShots w) /\
    (forall (e : Event) (w' : World),
        dispatch e w = Some w' ->
        (List.length (singleShots w) < List.length (singleShots w'))%nat ->
        e = Alert alert).
Proof.
  intros w alert Ha Hne Hc.
  assert (Hne' : CutyPage.getAlertString (mPage w) <> "") by now rewrite Ha.
  assert (Harm : singleShots (javaScriptAlert alert w)
                 = (singleShots w ++ [(10, SlotDelayed)])%list).
  { rewrite javaScriptAlert_singleShots, Ha, Hc, String.eqb_refl.
    destruct alert; [contradiction | reflexivity]. }
  split; [| split; [| split]].
  - intros events Hall. apply (exec_passive alert); assumption.
  - split; [apply javaScriptAlert_quiet | exact Harm].
  - exists (Delayed (set_singleShots (singleShots w) (javaScriptAlert alert w))).
    split_all.
    + cbn [dispatch]. rewrite Harm, nth_error_snoc, removeNth_snoc.
      reflexivity.
    + unfold Delayed. rewrite saveSnapshot_captures. f_equal.
      apply javaScriptAlert_quiet.
    + unfold Delayed.
      destruct (saveSnapshot_frame
                  (set_singleShots (singleShots w) (javaScriptAlert alert w)))
        as (_ & _ & Hs & _).
      rewrite Hs. reflexivity.
    + unfold Delayed. apply saveSnapshot_stops_timer.
  - split.
    + intros msg Hm. split; [apply javaScriptAlert_quiet |].
      rewrite javaScriptAlert_singleShots, Ha.
      apply String.eqb_neq in Hm. rewrite Hm, andb_false_r. reflexivity.
    + intros e w' Hd Hlt.
      destruct (passive alert e) eqn:Hp.
      * rewrite <- Ha in Hp.
        destruct (dispatch_passive e w w' Hne' Hp Hd) as (_ & Hs & _).
        rewrite Hs in Hlt. lia.
      * destruct e; cbn [passive] in Hp; try discriminate Hp.
        -- apply negb_false_iff, String.eqb_eq in Hp. now subst.
        -- cbn [dispatch] in Hd.
           destruct (nth_error (singleShots w) n) as [[ms []] |] eqn:En;
             [| discriminate].
           inversion Hd; subst; clear Hd. unfold Delayed in Hlt.
           match type of Hlt with
           | context [saveSnapshot ?v] =>
               destruct (saveSnapshot_frame v) as (_ & _ & Hs & _)
           end.
           rewrite Hs in Hlt. cbn [singleShots set_singleShots] in Hlt.
           exfalso. revert Hlt. clear. generalize (singleShots w) as l.
           induction n as [| n IH]; intros [| x l]; cbn; try lia.
           intros H. apply (IH l). lia.
        -- cbn [dispatch] in Hd.
           destruct (isActive (mTimeoutTimer w)); [| discriminate].
           inversion Hd; subst; clear Hd. unfold Timeout in Hlt.
           match type of Hlt with
           | context [saveSnapshot ?v] =>
               destruct (saveSnapshot_frame v) as (_ & _ & Hs & _)
           end.
           rewrite Hs in Hlt. destruct (negb (mSilent _)) in Hlt;
             cbn in Hlt; lia.
Qed.

Lemma only_the_expected_alert_schedules_a_capture_witness :
  captures
    (exec
       (startup
          (parseArgs ["--url=http://a/"; "--out=a.png"; "--expect-alert=READY"]
             (initialArgs false)))
       [LoadFinished true; ContentsSizeChanged (mkQSizeF 1024 768);
        JavaScriptResult 1024 768; LoadFinished true; Alert "ready"])
  = O /\
  singleShots
    (javaScriptAlert "READY"
       (startup
          (parseArgs ["--url=http://a/"; "--out=a.png"; "--expect-alert=READY"]
             (initialArgs false))))
  = [(10, SlotDelayed)].
Proof.
  destruct (only_the_expected_alert_schedules_a_capture
              (startup
                 (parseArgs
                    ["--url=http://a/"; "--out=a.png"; "--expect-alert=READY"]
                    (initialArgs false)))
              "READY")
    as (Hpassive & (_ & Hmatch) & _);
    [reflexivity | discriminate | reflexivity |].
  split; [| exact Hmatch].
  apply Hpassive. repeat constructor.
Defined.

(** ** The output format on the command line *)


Lemma overrideFormat_unrecognized (value : string) (tbl : list _CutyExtMap) :
  forall f : OutputFormat,
    (forall e, In e tbl -> identifier e <> value) ->
    overrideFormat tbl value f = f.
Proof.
  induction tbl as [| e tbl IH]; intros f H; cbn; [reflexivity |].
  assert (E : strcmp0 value (identifier e) = false).
  { apply String.eqb_neq. intros E. apply (H e); [now left | now symmetry]. }
  rewrite E. apply IH. intros e' He'. apply H. now right.
Qed.

Lemma inferFormat_unrecognized (out : string) (tbl : list _CutyExtMap) :
  forall f : OutputFormat,
    (forall e, In e tbl -> endsWith out (extension e) = false) ->
    inferFormat tbl out f = f.
Proof.
  induction tbl as [| e tbl IH]; intros f H; cbn; [reflexivity |].
  rewrite (H e) by now left. apply IH. intros e' He'. apply H. now right.
Qed.

Lemma parseArg_out_format (value : string) (a : Args) :
  parseArg ("--out-format=" ++ value) a =
  let a1 := set_format
              (overrideFormat (upToSentinel CutyExtMap) value (format a)) a in
  if format_eqb (format a1) OtherFormat
  then (set_argHelp true a1, true) else (a1, false).
Proof. reflexivity. Qed.


Lemma parseArg_out (value : string) (a : Args) :
  parseArg ("--out=" ++ value) a =
  let a1 := set_argOut value a in
  if format_eqb (format a1) OtherFormat
  then (set_format
          (inferFormat (upToSentinel CutyExtMap) (argOut a1) (format a1)) a1,
        false)
  else (a1, false).
Proof. reflexivity. Qed.





(** ** The extension table, both ways *)

Lemma length_append (a b : string) :
  String.length (a ++ b) = (String.length a + String.length b)%nat.
Proof. induction a as [| c a IH]; cbn; [reflexivity | now rewrite IH]. Qed.

Lemma substring_whole (s : string) : substring 0 (String.length s) s = s.
Proof. induction s as [| c s IH]; cbn; [reflexivity | now rewrite IH]. Qed.

Lemma substring_skip (a b : string) :
  substring (String.length a) (String.length b) (a ++ b) = b.
Proof.
  induction a as [| c a IH]; cbn; [apply substring_whole | exact IH].
Qed.

Lemma substring_split (s : string) :
  forall k : nat,
    (k <= String.length s)%nat ->
    s = substring 0 k s ++ substring k (String.length s - k) s.
Proof.
  induction s as [| c s IH]; intros k Hk; cbn in Hk.
  - assert (k = O) by lia. subst. reflexivity.
  - destruct k as [| k].
    + cbn. now rewrite substring_whole.
    + cbn. f_equal. apply IH. lia.
Qed.

Lemma endsWith_append (stem suffix : string) :
  endsWith (stem ++ suffix) suffix = true.
Proof.
  unfold endsWith. rewrite length_append.
  replace (String.length stem + String.length suffix - String.length suffix)%nat
    with (String.length stem) by lia.
  rewrite substring_skip, String.eqb_refl, andb_true_r.
  apply Nat.leb_le. lia.
Qed.

Lemma endsWith_split (s suffix : string) :
  endsWith s suffix = true -> exists pre, s = pre ++ suffix.
Proof.
  unfold endsWith. intros H. apply andb_true_iff in H. destruct H as [Hl He].
  apply Nat.leb_le in Hl. apply String.eqb_eq in He.
  exists (substring 0 (String.length s - String.length suffix) s).
  pose proof (substring_split s (String.length s - String.length suffix)) as P.
  replace (String.length s - (String.length s - String.length suffix))%nat
    with (String.length suffix) in P by lia.
  rewrite He in P. apply P. lia.
Qed.

(** Of two endings of one string the shorter ends the longer. *)
Lemma ending_of_ending (p1 : string) :
  forall a p2 b : string,
    p1 ++ a = p2 ++ b -> (String.length a <= String.length b)%nat ->
    exists q, b = q ++ a.
Proof.
  induction p1 as [| c p1 IH]; intros a p2 b E Hl; cbn in E.
  - subst a. rewrite length_append in Hl.
    destruct p2 as [| c2 p2]; [exists ""; reflexivity | cbn in Hl; lia].
  - destruct p2 as [| c2 p2]; cbn in E.
    + exists (String c p1). now symmetry.
    + inversion E; subst. now apply (IH a p2 b).
Qed.

Lemma endsWith_other (stem e e' : string) :
  endsWith e e' = false -> endsWith e' e = false ->
  endsWith (stem ++ e) e' = false.
Proof.
  intros H1 H2. destruct (endsWith (stem ++ e) e') eqn:E; [| reflexivity].
  apply endsWith_split in E. destruct E as [pre E].
  destruct (Nat.le_ge_cases (String.length e) (String.length e')) as [L | L].
  - destruct (ending_of_ending stem e pre e' E L) as [q ->].
    now rewrite endsWith_append in H2.
  - symmetry in E. destruct (ending_of_ending pre e' stem e E L) as [q ->].
    now rewrite endsWith_append in H1.
Qed.

(** The table before the sentinel, spelled out. *)
Lemma upToSentinel_CutyExtMap :
  upToSentinel CutyExtMap =
  [ ExtEntry SvgFormat ".svg" "svg";     ExtEntry PdfFormat ".pdf" "pdf";
    ExtEntry PsFormat ".ps" "ps";        ExtEntry InnerTextFormat ".txt" "itext";
    ExtEntry HtmlFormat ".html" "html";  ExtEntry JpegFormat ".jpeg" "jpeg";
    ExtEntry PngFormat ".png" "png";     ExtEntry MngFormat ".mng" "mng";
    ExtEntry TiffFormat ".tiff" "tiff";  ExtEntry GifFormat ".gif" "gif";
    ExtEntry BmpFormat ".bmp" "bmp";     ExtEntry PpmFormat ".ppm" "ppm";
    ExtEntry XbmFormat ".xbm" "xbm";     ExtEntry XpmFormat ".xpm" "xpm" ].
Proof. reflexivity. Qed.

Ltac each_entry H :=
  rewrite upToSentinel_CutyExtMap in H; cbn [In] in H;
  repeat (destruct H as [<- | H]; [| try contradiction]).

Lemma overrideFormat_identifier (e : _CutyExtMap) (g : OutputFormat) :
  In e (upToSentinel CutyExtMap) ->
  overrideFormat (upToSentinel CutyExtMap) (identifier e) g = id e.
Proof. intros H. each_entry H; reflexivity. Qed.

Lemma entry_not_sentinel (e : _CutyExtMap) :
  In e (upToSentinel CutyExtMap) -> format_eqb (id e) OtherFormat = false.
Proof. intros H. each_entry H; reflexivity. Qed.

Lemma inferFormat_extension (e : _CutyExtMap) (stem : string)
    (f0 : OutputFormat) :
  In e (upToSentinel CutyExtMap) ->
  inferFormat (upToSentinel CutyExtMap) (stem ++ extension e) f0 = id e.
Proof.
  intros H. rewrite upToSentinel_CutyExtMap.
  each_entry H; cbn [inferFormat extension id];
    repeat match goal with
      | |- context [endsWith (stem ++ ?x) ?x] => rewrite (endsWith_append stem x)
      | |- context [endsWith (stem ++ ?x) ?y] =>
          rewrite (endsWith_other stem x y) by reflexivity
      end; reflexivity.
Qed.

Lemma lookupIdentifier_entry (e : _CutyExtMap) :
  In e (upToSentinel CutyExtMap) ->
  lookupIdentifier (upToSentinel CutyExtMap) (id e) = Some (identifier e).
Proof. intros H. each_entry H; reflexivity. Qed.

Lemma identifier_known_or_not (value : string) (tbl : list _CutyExtMap) :
  (exists e, In e tbl /\ identifier e = value) \/
  (forall e, In e tbl -> identifier e <> value).
Proof.
  induction tbl as [| x tbl [[e [He Hv]] | IH]].
  - right. intros e [].
  - left. exists e. split; [now right | exact Hv].
  - destruct (string_dec (identifier x) value) as [E | N].
    + left. exists x. split; [now left | exact E].
    + right. intros e [<- | He]; [exact N | now apply IH].
Qed.

(** X1.  Identifier and format determine each other through the table:
    every format but the sentinel has a non-empty identifier that
    [saveSnapshot]'s lookup finds and that the [--out-format] loop maps back
    to the format, whatever the format was before; the sentinel has no
    identifier; and a value the [--out-format] loop changes the format with
    is the identifier [saveSnapshot] will find for the new format. *)
Theorem identifier_and_format_determine_each_other :
  (forall f : OutputFormat,
      f <> OtherFormat ->
      exists ident : string,
        ident <> "" /\
        lookupIdentifier (upToSentinel CutyExtMap) f = Some ident /\
        forall g, overrideFormat (upToSentinel CutyExtMap) ident g = f) /\
  lookupIdentifier (upToSentinel CutyExtMap) OtherFormat = None /\
  (forall (value : string) (g : OutputFormat),
      overrideFormat (upToSentinel CutyExtMap) value g = g \/
      lookupIdentifier (upToSentinel CutyExtMap)
        (overrideFormat (upToSentinel CutyExtMap) value g) = Some value).
Proof.
  split_all.
  - intros f Hf.
    destruct f; try contradiction;
      eexists; (split; [| split; [reflexivity | intros g; reflexivity]]);
      discriminate.
  - reflexivity.
  - intros value g.
    destruct (identifier_known_or_not value (upToSentinel CutyExtMap))
      as [[e [He <-]] | Hno].
    + right. rewrite (overrideFormat_identifier e g He).
      now apply lookupIdentifier_entry.
    + left. now apply overrideFormat_unrecognized.
Qed.

Lemma identifier_and_format_determine_each_other_witness :
  exists ident : string,
    ident <> "" /\
    lookupIdentifier (upToSentinel CutyExtMap) InnerTextFormat = Some ident /\
    forall g, overrideFormat (upToSentinel CutyExtMap) ident g = InnerTextFormat.
Proof.
  apply (proj1 identifier_and_format_determine_each_other InnerTextFormat).
  discriminate.
Defined.

Lemma parseArg_out_format_known (e : _CutyExtMap) (a : Args) :
  In e (upToSentinel CutyExtMap) ->
  parseArg ("--out-format=" ++ identifier e) a = (set_format (id e) a, false).
Proof.
  intros H. rewrite parseArg_out_format. cbv zeta. cbn [format set_format].
  rewrite (overrideFormat_identifier e _ H), (entry_not_sentinel e H).
  reflexivity.
Qed.

Lemma parseArg_out_resolved (path : string) (a : Args) :
  format a <> OtherFormat ->
  parseArg ("--out=" ++ path) a = (set_argOut path a, false).
Proof.
  intros H. rewrite parseArg_out. cbv zeta. cbn [format set_argOut].
  destruct (format_eqb (format a) OtherFormat) eqn:E; [| reflexivity].
  apply format_eqb_eq in E. contradiction.
Qed.

Lemma parseArg_out_unresolved (path : string) (a : Args) :
  format a = OtherFormat ->
  parseArg ("--out=" ++ path) a =
  (set_format (inferFormat (upToSentinel CutyExtMap) path OtherFormat)
     (set_argOut path a), false).
Proof.
  intros H. rewrite parseArg_out. cbv zeta. cbn [format set_argOut argOut].
  rewrite H. reflexivity.
Qed.

(** X2.  While no format has been resolved, an [--out] path that ends in
    the extension of a table entry resolves to that entry's format,
    whatever precedes the extension; a path that ends in no extension of the
    table leaves the format unresolved.  Either way the path is stored and
    the loop goes on. *)
Theorem out_extension_resolves_format :
  forall (a : Args),
    format a = OtherFormat ->
    (forall (e : _CutyExtMap) (stem : string),
        In e (upToSentinel CutyExtMap) ->
        parseArg ("--out=" ++ stem ++ extension e) a
        = (set_format (id e) (set_argOut (stem ++ extension e) a), false)) /\
    (forall path : string,
        (forall e, In e (upToSentinel CutyExtMap) ->
                   endsWith path (extension e) = false) ->
        parseArg ("--out=" ++ path) a
        = (set_format OtherFormat (set_argOut path a), false)).
Proof.
  intros a Ha. split.
  - intros e stem He. rewrite (parseArg_out_unresolved _ a Ha).
    now rewrite (inferFormat_extension e stem OtherFormat He).
  - intros path Hno. rewrite (parseArg_out_unresolved _ a Ha).
    now rewrite (inferFormat_unrecognized path _ OtherFormat Hno).
Qed.

Lemma out_extension_resolves_format_witness :
  parseArg ("--out=" ++ "/tmp/shots/page.v2" ++ ".jpeg") (initialArgs false)
  = (set_format JpegFormat
       (set_argOut ("/tmp/shots/page.v2" ++ ".jpeg") (initialArgs false)),
     false).
Proof.
  apply (proj1 (out_extension_resolves_format (initialArgs false) eq_refl)
           (ExtEntry JpegFormat ".jpeg" "jpeg") "/tmp/shots/page.v2").
  rewrite upToSentinel_CutyExtMap. cbn. tauto.
Defined.

(** X3.  A recognised [--out-format] decides the format whether it comes
    before or after [--out]: after it, it overwrites what the extension
    gave; before it, [--out] no longer looks at the extension.  Neither
    order sets the help flag, and the path is stored in both. *)
Theorem recognised_override_wins_in_either_order :
  forall (e : _CutyExtMap) (path : string) (a : Args),
    In e (upToSentinel CutyExtMap) ->
    let first := parseArgs ["--out-format=" ++ identifier e; "--out=" ++ path] a in
    let last := parseArgs ["--out=" ++ path; "--out-format=" ++ identifier e] a in
    format first = id e /\ format last = id e /\
    argOut first = path /\ argOut last = path /\
    argHelp first = argHelp a /\ argHelp last = argHelp a.
Proof.
  intros e path a He first last. subst first last. cbn [parseArgs].
  rewrite (parseArg_out_format_known e a He).
  assert (Hn : format (set_format (id e) a) <> OtherFormat).
  { cbn. intros E. apply format_eqb_eq in E.
    rewrite (entry_not_sentinel e He) in E. discriminate E. }
  rewrite (parseArg_out_resolved path _ Hn).
  destruct (format_eqb (format a) OtherFormat) eqn:E.
  - apply format_eqb_eq in E. rewrite (parseArg_out_unresolved path a E).
    rewrite (parseArg_out_format_known e _ He). split_all; reflexivity.
  - assert (Hr : format a <> OtherFormat).
    { intros E'. apply format_eqb_eq in E'. rewrite E' in E. discriminate E. }
    rewrite (parseArg_out_resolved path a Hr).
    rewrite (parseArg_out_format_known e _ He). split_all; reflexivity.
Qed.

Lemma recognised_override_wins_in_either_order_witness :
  format (parseArgs ["--out=" ++ "shot.png"; "--out-format=" ++ "pdf"]
            (initialArgs false)) = PdfFormat.
Proof.
  apply (recognised_override_wins_in_either_order
           (ExtEntry PdfFormat ".pdf" "pdf") "shot.png" (initialArgs false)).
  rewrite upToSentinel_CutyExtMap. cbn. tauto.
Defined.

(** ** The argument loop *)

Ltac break_parseArg :=
  unfold parseArg;
  repeat match goal with
    | |- context [if ?c then _ else _] => destruct c
    | |- context [match strchr ?s ?c with _ => _ end] =>
        destruct (strchr s c) as [[? ?] |]
    end.

(** The help flag is never cleared. *)
Lemma parseArg_keeps_help (s : string) (a : Args) :
  argHelp a = true -> argHelp (fst (parseArg s a)) = true.
Proof. intros H. break_parseArg; cbn; auto. Qed.

(** Every [break] of the loop comes with the help flag set. *)
Lemma parseArg_break_sets_help (s : string) (a : Args) :
  snd (parseArg s a) = true -> argHelp (fst (parseArg s a)) = true.
Proof. break_parseArg; cbn; auto; discriminate. Qed.

Lemma parseArgs_keeps_help (args : list string) :
  forall a : Args, argHelp a = true -> argHelp (parseArgs args a) = true.
Proof.
  induction args as [| s args IH]; intros a H; cbn [parseArgs]; [exact H |].
  pose proof (parseArg_keeps_help s a H) as K.
  destruct (parseArg s a) as [a' stop]. cbn in K.
  destruct stop; [exact K | now apply IH].
Qed.

Lemma parseArgs_help_anywhere (s : string) (pre rest : list string) :
  (forall a, argHelp (fst (parseArg s a)) = true) ->
  forall a : Args, argHelp (parseArgs (pre ++ s :: rest) a) = true.
Proof.
  intros Hs. induction pre as [| x pre IH]; intros a; cbn [parseArgs app].
  - specialize (Hs a). destruct (parseArg s a) as [a' stop]. cbn in Hs.
    destruct stop; [exact Hs | now apply parseArgs_keeps_help].
  - pose proof (parseArg_break_sets_help x a) as B.
    destruct (parseArg x a) as [a' stop]. cbn in B.
    destruct stop; [now apply B | apply IH].
Qed.

Lemma main_setup_help (grabNull : bool) (argv : list string) :
  argHelp (parseArgs (tl argv) (initialArgs grabNull)) = true ->
  main_setup grabNull argv = Help.
Proof.
  intros H. unfold main_setup. rewrite H.
  destruct (argUrl _); [| reflexivity]. now rewrite orb_true_r.
Qed.

Lemma parseArg_no_equals (s : string) (a : Args) :
  strchr s "="%char = None ->
  s <> "--silent" -> s <> "--insecure" -> s <> "--smooth" ->
  s <> "--debug-print-alerts" ->
  parseArg s a = (set_argHelp true a, true).
Proof.
  intros He H1 H2 H3 H4. unfold parseArg, strcmp0.
  rewrite He.
  replace ("--silent" =? s)%string with false
    by (symmetry; apply String.eqb_neq; congruence).
  replace ("--insecure" =? s)%string with false
    by (symmetry; apply String.eqb_neq; congruence).
  replace ("--smooth" =? s)%string with false
    by (symmetry; apply String.eqb_neq; congruence).
  replace ("--debug-print-alerts" =? s)%string with false
    by (symmetry; apply String.eqb_neq; congruence).
  destruct ("--help" =? s)%string; reflexivity.
Qed.

Lemma parseArg_header (value : string) (a : Args) :
  parseArg ("--header=" ++ value) a =
  match strchr value ":"%char with
  | None => (set_argHelp true a, true)
  | Some _ => (a, false)
  end.
Proof. reflexivity. Qed.

(** X4.  Option names are compared over the length of the name given, so
    every abbreviation of [--url], down to the empty name, is taken as
    [--url]; a name that abbreviates several options goes to the first of
    them in the chain; and a name that merely extends an option's name is
    no option: it sets the help flag and the loop goes on. *)
Theorem abbreviated_option_names :
  forall (value : string) (a : Args),
    (forall n : nat,
        (n <= 5)%nat ->
        parseArg (substring 0 n "--url" ++ "=" ++ value) a
        = (set_argUrl (Some value) a, false)) /\
    parseArg ("--min=" ++ value) a = parseArg ("--min-width=" ++ value) a /\
    parseArg ("--o=" ++ value) a = parseArg ("--out=" ++ value) a /\
    parseArg ("--urls=" ++ value) a = (set_argHelp true a, false).
Proof.
  intros value a. split_all; try reflexivity.
  intros n Hn.
  do 6 (destruct n as [| n]; [reflexivity |]). lia.
Qed.

Lemma abbreviated_option_names_witness :
  parseArg (substring 0 3 "--url" ++ "=" ++ "http://a/") (initialArgs false)
  = (set_argUrl (Some "http://a/") (initialArgs false), false).
Proof.
  apply (proj1 (abbreviated_option_names "http://a/" (initialArgs false)) 3%nat).
  lia.
Defined.


(** ** Deliveries that do not capture, and the one step that does *)

Lemma calm_refl (w : World) : calm w w.
Proof. unfold calm. split_all; auto. Qed.

Lemma calm_trans (a b c : World) : calm a b -> calm b c -> calm a c.
Proof.
  unfold calm.
  intros (A1 & A2 & A3 & A4 & A5 & A6 & A7 & A8)
         (B1 & B2 & B3 & B4 & B5 & B6 & B7 & B8).
  assert (S : mSilent b = mSilent a) by (unfold config in A1; congruence).
  split_all; try congruence; auto.
  destruct B8 as [E | [[E1 E2] | [E1 [E2 | E2]]]].
  - rewrite E. exact A8.
  - right; left. split; congruence.
  - right; right. auto.
  - right; right. auto.
Qed.

Ltac calm_by_computation :=
  unfold calm, config, captures, snapshotSizes; cbn;
  repeat (break_if; cbn); split_all; auto.

Lemma calm_set_jsCallbacks (n : nat) (w : World) : calm w (set_jsCallbacks n w).
Proof. calm_by_computation. Qed.

Lemma calm_set_singleShots (l : list (Z * Slot)) (w : World) :
  calm w (set_singleShots l w).
Proof. calm_by_computation. Qed.

Lemma calm_timer_off (w : World) :
  calm w (set_mTimeoutTimer (mkQTimer false (interval (mTimeoutTimer w))) w).
Proof. calm_by_computation. intros H; discriminate H. Qed.

Lemma calm_sizeUpdate (w0 h : Z) (w : World) : calm w (sizeUpdate w0 h w).
Proof. unfold sizeUpdate. calm_by_computation. Qed.

Lemma calm_DocumentComplete (ok : bool) (w : World) :
  calm w (DocumentComplete ok w).
Proof.
  destruct w as [p o d f dc gc vs i sm si t ss js pj tj ec tr].
  unfold DocumentComplete, updateViewportToContentThenMaybeCapture.
  destruct si, ok; calm_by_computation.
Qed.

Lemma calm_onContentsSizeChanged (sz : QSizeF) (w : World) :
  calm w (onContentsSizeChanged sz w).
Proof.
  destruct w as [p o d f dc gc vs i sm si t ss js pj tj ec tr].
  unfold onContentsSizeChanged. calm_by_computation.
Qed.

Lemma calm_javaScriptAlert (msg : string) (w : World) :
  calm w (javaScriptAlert msg w).
Proof.
  destruct w as [p o d f dc gc vs i sm si t ss js pj tj ec tr].
  unfold javaScriptAlert. calm_by_computation.
Qed.

Lemma calm_pdfPrintFinish (file : string) (success : bool) (rest : list string)
    (w : World) :
  pdfJobs w = file :: rest ->
  calm w (pdfPrintFinish file success (set_pdfJobs rest w)).
Proof.
  destruct w as [p o d f dc gc vs i sm si t ss js pj tj ec tr].
  cbn [pdfJobs]. intros ->. unfold pdfPrintFinish.
  destruct si, success; calm_by_computation;
    try (intros _; discriminate);
    try (right; right; split; [reflexivity | left; discriminate]).
Qed.

Lemma calm_extractionCallback (out result : string) (openOk : bool)
    (rest : list string) (w : World) :
  textJobs w = out :: rest ->
  calm w (extractionCallback out result openOk (set_textJobs rest w)).
Proof.
  destruct w as [p o d f dc gc vs i sm si t ss js pj tj ec tr].
  cbn [textJobs]. intros ->. unfold extractionCallback.
  destruct openOk; calm_by_computation;
    try (intros _; discriminate);
    try (right; right; split; [reflexivity | right; discriminate]).
Qed.

Lemma calm_Timeout_before_snapshot (w : World) :
  calm w (if negb (mSilent w) then emit (Clog "Timeout reached") w else w).
Proof.
  destruct w as [p o d f dc gc vs i sm si t ss js pj tj ec tr].
  destruct si; calm_by_computation.
Qed.

Lemma saveSnapshot_config (v : World) : config (saveSnapshot v) = config v.
Proof.
  unfold saveSnapshot, config;
    destruct v as [p o d f dc gc vs i sm si t ss js pj tj ec tr].
  cbn. repeat (break_if; cbn); destruct f; cbn; repeat (break_if; cbn);
    reflexivity.
Qed.

Lemma saveSnapshot_size_nonempty (v : World) :
  isEmpty (mViewSize (saveSnapshot v)) = false.
Proof.
  rewrite saveSnapshot_viewSize.
  destruct (isEmpty (mViewSize v)) eqn:E1; [| exact E1].
  destruct (isEmpty (CutyPage.size (mPage v))) eqn:E2; [reflexivity | exact E2].
Qed.

(** Every delivery either stays calm or is one entry into [saveSnapshot]
    from a calm world with the exit code untouched. *)
Lemma dispatch_calm_or_snapshot (e : Event) (w w' : World) :
  dispatch e w = Some w' ->
  calm w w' \/
  exists v, calm w v /\ exitCode v = exitCode w /\ w' = saveSnapshot v.
Proof.
  destruct e; cbn [dispatch]; intros H.
  - inversion H; subst. left. apply calm_DocumentComplete.
  - inversion H; subst. left. apply calm_onContentsSizeChanged.
  - destruct (jsCallbacks w) eqn:E; [discriminate |].
    inversion H; subst. rewrite viewportCallback_sizeUpdate.
    set (u := sizeUpdate width height (set_jsCallbacks n w)).
    assert (Cu : calm w u).
    { eapply calm_trans; [apply calm_set_jsCallbacks | apply calm_sizeUpdate]. }
    assert (Xu : exitCode u = exitCode w).
    { destruct (sizeUpdate_frame width height (set_jsCallbacks n w))
        as (_ & _ & _ & _ & _ & _ & X & _). exact X. }
    cbv zeta. destruct (_ && _); [| left; exact Cu].
    unfold TryDelayedRender.
    destruct (negb _); [left; exact Cu |].
    destruct (mDelay u >? 0).
    + left. eapply calm_trans; [exact Cu |].
      unfold QTimer_singleShot. apply calm_set_singleShots.
    + right. exists u. auto.
  - inversion H; subst. left. apply calm_javaScriptAlert.
  - inversion H; subst. left. apply calm_refl.
  - inversion H; subst. left. apply calm_refl.
  - inversion H; subst. left.
    destruct (accepted _); [| apply calm_refl].
    destruct w; calm_by_computation.
  - destruct (nth_error (singleShots w) n) as [[ms []] |]; [| discriminate].
    inversion H; subst. right.
    exists (set_singleShots (removeNth n (singleShots w)) w).
    split_all; [apply calm_set_singleShots | reflexivity | reflexivity].
  - destruct (isActive (mTimeoutTimer w)); [| discriminate].
    inversion H; subst. right. unfold Timeout.
    eexists. split_all; [| | reflexivity].
    + eapply calm_trans; [apply calm_timer_off |].
      apply calm_Timeout_before_snapshot.
    + cbn. destruct (negb (mSilent w)); reflexivity.
  - destruct (pdfJobs w) as [| file rest] eqn:E; [discriminate |].
    inversion H; subst. left. now apply calm_pdfPrintFinish.
  - destruct (textJobs w) as [| out rest] eqn:E; [discriminate |].
    inversion H; subst. left. now apply calm_extractionCallback.
Qed.

(** A property kept by calm steps and by [saveSnapshot] holds all along
    [exec]. *)
Lemma exec_invariant (P : World -> Prop) :
  (forall w v, P w -> calm w v -> P v) ->
  (forall v, P v -> P (saveSnapshot v)) ->
  forall (events : list Event) (w : World), P w -> P (exec w events).
Proof.
  intros Hc Hs. induction events as [| e rest IH]; intros w Hw; cbn [exec];
    [exact Hw |].
  destruct (dispatch e w) as [w' |] eqn:Hd; [| now apply IH].
  apply IH.
  destruct (dispatch_calm_or_snapshot e w w' Hd) as [C | (v & C & X & ->)].
  - now apply (Hc w).
  - apply Hs. now apply (Hc w).
Qed.

(** ** What a run keeps *)



Lemma exec_timer_stays_off (events : list Event) (w : World) :
  isActive (mTimeoutTimer w) = false ->
  isActive (mTimeoutTimer (exec w events)) = false.
Proof.
  apply (exec_invariant (fun v => isActive (mTimeoutTimer v) = false)).
  - intros a b Pa (_ & _ & _ & T & _).
    destruct (isActive (mTimeoutTimer b)); [| reflexivity].
    rewrite (T eq_refl) in Pa. discriminate Pa.
  - intros v _. apply saveSnapshot_stops_timer.
Qed.

(** X7.  No slot ever starts the timeout timer: from a world in which it
    is not running no timeout can be delivered, whatever else is; [main]
    leaves it unstarted when the maximal wait is 0, which is what
    [--max-wait=0] sets. *)
Theorem no_timeout_without_max_wait :
  (forall (w : World) (events : list Event),
      isActive (mTimeoutTimer w) = false ->
      dispatch TimeoutElapsed (exec w events) = None) /\
  (forall (a : Args) (events : list Event),
      argMaxWait a = 0 ->
      dispatch TimeoutElapsed (exec (startup a) events) = None) /\
  (forall a : Args,
      parseArg "--max-wait=0" a = (set_argMaxWait 0 a, false)).
Proof.
  assert (G : forall (w : World) (events : list Event),
             isActive (mTimeoutTimer w) = false ->
             dispatch TimeoutElapsed (exec w events) = None).
  { intros w events H. cbn [dispatch].
    now rewrite (exec_timer_stays_off events w H). }
  split_all; [exact G | | reflexivity].
  intros a events H. apply G. unfold startup. rewrite H. reflexivity.
Qed.

Lemma no_timeout_without_max_wait_witness :
  dispatch TimeoutElapsed
    (exec (startup (parseArgs ["--url=http://a/"; "--out=a.png"; "--max-wait=0"]
                      (initialArgs false)))
       [LoadFinished true; TimeoutElapsed; Alert "x"]) = None.
Proof.
  apply (proj1 (proj2 no_timeout_without_max_wait)). reflexivity.
Defined.

Lemma saveSnapshot_timeoutNotices (v : World) :
  timeoutNotices (saveSnapshot v) = timeoutNotices v.
Proof.
  unfold saveSnapshot, timeoutNotices;
    destruct v as [p o d f dc gc vs i sm si t ss js pj tj ec tr].
  cbn. repeat (break_if; cbn); destruct f; cbn; repeat (break_if; cbn);
    reflexivity.
Qed.

(** X8.  A running timeout timer that elapses always captures, whatever
    the load and geometry flags are and whether or not an alert is
    expected: [saveSnapshot] is entered once with a non-empty size, the
    timer is off afterwards so that no second timeout can be delivered, and
    the notice is logged exactly when the run is not silent. *)
Theorem timeout_forces_one_capture :
  forall w : World,
    isActive (mTimeoutTimer w) = true ->
    exists w' : World,
      dispatch TimeoutElapsed w = Some w' /\
      captures w' = S (captures w) /\
      isEmpty (mViewSize w') = false /\
      snapshotSizes w' = mViewSize w' :: snapshotSizes w /\
      dispatch TimeoutElapsed w' = None /\
      timeoutNotices w' =
      if mSilent w then timeoutNotices w else S (timeoutNotices w).
Proof.
  intros w H. cbn [dispatch]. rewrite H. eexists. split; [reflexivity |].
  unfold Timeout.
  set (v := if negb (mSilent _) then emit _ _ else _).
  assert (Hv : captures v = captures w /\ snapshotSizes v = snapshotSizes w /\
               timeoutNotices v =
               if mSilent w then timeoutNotices w else S (timeoutNotices w)).
  { unfold v. destruct w as [p o d f dc gc vs i sm si t ss js pj tj ec tr].
    cbn. destruct si; cbn; split_all; reflexivity. }
  destruct Hv as (V1 & V2 & V3).
  rewrite saveSnapshot_captures, saveSnapshot_size_nonempty,
    saveSnapshot_snapshotSizes, saveSnapshot_timeoutNotices,
    saveSnapshot_stops_timer, V1, V2, V3.
  split_all; reflexivity.
Qed.

Lemma timeout_forces_one_capture_witness :
  exists w' : World,
    dispatch TimeoutElapsed
      (startup (parseArgs ["--url=http://a/"; "--out=a.png";
                           "--expect-alert=READY"] (initialArgs false)))
    = Some w' /\
    captures w' = 1%nat.
Proof.
  destruct (timeout_forces_one_capture
              (startup (parseArgs ["--url=http://a/"; "--out=a.png";
                                   "--expect-alert=READY"] (initialArgs false))))
    as (w' & H & Hc & _); [reflexivity |].
  exists w'. split; [exact H | exact Hc].
Defined.

(** X9.  Nothing delivered during the run changes what [main] configured:
    output path, delay, format, the insecure, smooth and silent flags and
    the engine page with its alert string are the same after any events;
    and the document-complete flag, once set, stays set. *)
Theorem configuration_is_fixed_for_the_run :
  forall (w : World) (events : list Event),
    config (exec w events) = config w /\
    (mSawDocumentComplete w = true ->
     mSawDocumentComplete (exec w events) = true).
Proof.
  intros w events.
  apply (exec_invariant
           (fun v => config v = config w /\
                     (mSawDocumentComplete w = true ->
                      mSawDocumentComplete v = true))).
  - intros a b [Pa Qa] (C & _ & _ & _ & D & _). split; [congruence | auto].
  - intros v [Pv Qv]. rewrite saveSnapshot_config.
    destruct (saveSnapshot_frame v) as (_ & _ & _ & _ & _ & _ & D & _).
    rewrite D. auto.
  - auto.
Qed.

Lemma configuration_is_fixed_for_the_run_witness :
  mSawDocumentComplete
    (exec (set_mSawDocumentComplete true
             (newCutyCapt (newCutyPage false) "a.png" 0 PngFormat
                false false true))
       [LoadFinished false; JavaScriptResult 0 0; TimeoutElapsed]) = true.
Proof.
  apply (configuration_is_fixed_for_the_run
           (set_mSawDocumentComplete true
              (newCutyCapt (newCutyPage false) "a.png" 0 PngFormat
                 false false true))
           [LoadFinished false; JavaScriptResult 0 0; TimeoutElapsed]).
  reflexivity.
Defined.

Lemma exec_exit_codes (events : list Event) (w : World) :
  exitCode w = None ->
  (exitCode (exec w events) = None \/ exitCode (exec w events) = Some 0 \/
   exitCode (exec w events) = Some 1) /\
  (mSilent w = true -> exitCode (exec w events) <> Some 1).
Proof.
  intros Hx.
  enough (G : (exitCode (exec w events) = None \/
               exitCode (exec w events) = Some 0 \/
               exitCode (exec w events) = Some 1) /\
              mSilent (exec w events) = mSilent w /\
              (mSilent w = true -> exitCode (exec w events) <> Some 1))
    by (destruct G as (A & _ & B); split; assumption).
  apply (exec_invariant
           (fun v => (exitCode v = None \/ exitCode v = Some 0 \/
                      exitCode v = Some 1) /\
                     mSilent v = mSilent w /\
                     (mSilent w = true -> exitCode v <> Some 1))).
  - intros a b (Pa & Sa & Qa) (C & _ & _ & _ & _ & _ & _ & E).
    assert (Sb : mSilent b = mSilent a) by (unfold config in C; congruence).
    destruct E as [E | [[E1 E2] | [E1 _]]]; rewrite ?E, ?E1;
      split_all; auto; try congruence; try (intros; discriminate).
  - intros v (Pv & Sv & Qv).
    rewrite saveSnapshot_exitCode.
    destruct (saveSnapshot_frame v) as (_ & _ & _ & _ & _ & S & _).
    rewrite S. destruct (quitsInline (mFormat v)); split_all; auto;
      intros; discriminate.
  - rewrite Hx. split_all; auto. intros; discriminate.
Qed.

(** X10.  The process ends with status 0 or 1, or goes on waiting: no
    other status is ever requested.  Once the command line is accepted a
    silent run never ends with status 1. *)
Theorem exit_status_is_0_or_1 :
  forall (grabNull : bool) (argv : list string) (events : list Event),
    (main grabNull argv events = None \/ main grabNull argv events = Some 0 \/
     main grabNull argv events = Some 1) /\
    (forall w : World,
        main_setup grabNull argv = Running w ->
        mSilent w = true ->
        main grabNull argv events = None \/ main grabNull argv events = Some 0).
Proof.
  intros grabNull argv events. unfold main.
  destruct (main_setup grabNull argv) as [| w] eqn:E.
  - split; [right; right; reflexivity | intros w H; discriminate H].
  - destruct (main_setup_running grabNull argv w E) as (_ & Hx & _).
    destruct (exec_exit_codes events w Hx) as [A B].
    split; [exact A |].
    intros w' H Hs. inversion H; subst w'.
    destruct A as [A | [A | A]]; auto.
    exfalso. exact (B Hs A).
Qed.

Lemma exit_status_is_0_or_1_witness :
  main false ["cutycapt"; "--url=http://a/"; "--out=a.pdf"; "--silent"]
    [LoadFinished false; JavaScriptResult 0 0; TimeoutElapsed;
     PdfPrintingFinished false] = None \/
  main false ["cutycapt"; "--url=http://a/"; "--out=a.pdf"; "--silent"]
    [LoadFinished false; JavaScriptResult 0 0; TimeoutElapsed;
     PdfPrintingFinished false] = Some 0.
Proof.
  apply (proj2 (exit_status_is_0_or_1 false
                  ["cutycapt"; "--url=http://a/"; "--out=a.pdf"; "--silent"]
                  [LoadFinished false; JavaScriptResult 0 0; TimeoutElapsed;
                   PdfPrintingFinished false])
           (startup (parseArgs ["--url=http://a/"; "--out=a.pdf"; "--silent"]
                       (initialArgs false))));
    reflexivity.
Defined.

(** X11.  A run that ends with status 0 has entered [saveSnapshot]: the
    process never reports success without having attempted a capture, and
    a print or extraction completion is only ever pending after one. *)
Theorem exit_0_only_after_a_capture :
  forall (grabNull : bool) (argv : list string) (w : World)
         (events : list Event),
    main_setup grabNull argv = Running w ->
    (main grabNull argv events = Some 0 -> (1 <= captures (exec w events))%nat) /\
    (pdfJobs (exec w events) <> [] \/ textJobs (exec w events) <> [] ->
     (1 <= captures (exec w events))%nat).
Proof.
  intros grabNull argv w events Hm.
  destruct (main_setup_running grabNull argv w Hm)
    as (Htr & Hx & _ & _ & Hp & Ht & _).
  assert (P : exitCode (exec w events) = Some 0 \/
              pdfJobs (exec w events) <> [] \/
              textJobs (exec w events) <> [] ->
              (1 <= captures (exec w events))%nat).
  { apply (exec_invariant
             (fun v => exitCode v = Some 0 \/ pdfJobs v <> [] \/
                       textJobs v <> [] -> (1 <= captures v)%nat)).
    - intros a b Pa (_ & Cc & _ & _ & _ & Jp & Jt & E) Hb.
      rewrite Cc. apply Pa.
      destruct Hb as [Hb | [Hb | Hb]]; auto.
      destruct E as [E | [[E _] | [_ [E | E]]]]; auto;
        [left | exfalso]; congruence.
    - intros v _ _. rewrite saveSnapshot_captures. lia.
    - rewrite Hx, Hp, Ht. intros [H | [H | H]];
        [discriminate H | now elim H | now elim H]. }
  split.
  - unfold main. rewrite Hm. intros H. apply P. now left.
  - intros H. apply P. now right.
Qed.

Lemma exit_0_only_after_a_capture_witness :
  (1 <= captures
          (exec (startup (parseArgs ["--url=http://a/"; "--out=a.txt"]
                            (initialArgs false)))
             [LoadFinished true; JavaScriptResult 640 480;
              ExtractionFinished "text" true]))%nat.
Proof.
  destruct (exit_0_only_after_a_capture false
              ["cutycapt"; "--url=http://a/"; "--out=a.txt"]
              (startup (parseArgs ["--url=http://a/"; "--out=a.txt"]
                          (initialArgs false)))
              [LoadFinished true; JavaScriptResult 640 480;
               ExtractionFinished "text" true])
    as [Hexit _]; [reflexivity |].
  apply Hexit. reflexivity.
Defined.

(** X12.  [saveSnapshot] never works with an empty size: the view size it
    leaves is at least 1 by 1, and so is every size a run has captured
    with, whatever the probe, the widget and the engine reported. *)
Theorem captures_never_use_an_empty_size :
  (forall v : World, isEmpty (mViewSize (saveSnapshot v)) = false) /\
  (forall (w : World) (events : list Event),
      Forall (fun sz => isEmpty sz = false) (snapshotSizes w) ->
      Forall (fun sz => isEmpty sz = false) (snapshotSizes (exec w events))).
Proof.
  split; [apply saveSnapshot_size_nonempty |].
  intros w events H.
  apply (exec_invariant
           (fun v => Forall (fun sz => isEmpty sz = false) (snapshotSizes v)));
    [| | exact H].
  - intros a b Pa (_ & _ & S & _). now rewrite S.
  - intros v Pv. rewrite saveSnapshot_snapshotSizes.
    constructor; [apply saveSnapshot_size_nonempty | exact Pv].
Qed.

Lemma captures_never_use_an_empty_size_witness :
  Forall (fun sz => isEmpty sz = false)
    (snapshotSizes
       (exec (startup (parseArgs ["--url=http://a/"; "--out=a.pdf";
                                  "--min-width=0"; "--min-height=0"]
                         (initialArgs false)))
          [ContentsSizeChanged (mkQSizeF (1 # 4) (1 # 4)); TimeoutElapsed])).
Proof.
  apply (proj2 captures_never_use_an_empty_size). constructor.
Defined.

(** ** The paths to a capture *)

Lemma DocumentComplete_true (w : World) :
  DocumentComplete true w =
  updateViewportToContentThenMaybeCapture
    (set_mSawDocumentComplete true
       (if negb (mSilent w)
        then emit (Cerr "WebEngine finished loadFinished(true)") w else w)).
Proof.
  unfold DocumentComplete. rewrite andb_false_r. reflexivity.
Qed.

Lemma updateViewport_ungated (w : World) :
  CutyPage.getAlertString (mPage w) = "" ->
  updateViewportToContentThenMaybeCapture w = set_jsCallbacks (S (jsCallbacks w)) w.
Proof.
  intros H. unfold updateViewportToContentThenMaybeCapture. now rewrite H.
Qed.

Lemma sizeUpdate_positive (w0 h : Z) (w : World) :
  0 < w0 -> 0 < h ->
  mViewSize (sizeUpdate w0 h w) = mkQSize w0 h /\
  mSawGeometryChange (sizeUpdate w0 h w) = true /\
  CutyPage.minimumSize (mPage (sizeUpdate w0 h w))
  = mkQSize (CutyPage.bound 0 CutyPage.QWIDGETSIZE_MAX w0)
            (CutyPage.bound 0 CutyPage.QWIDGETSIZE_MAX h).
Proof.
  intros H1 H2. unfold sizeUpdate.
  replace (w0 >? 0) with true by (symmetry; apply Z.gtb_lt; lia).
  replace (h >? 0) with true by (symmetry; apply Z.gtb_lt; lia).
  cbn. split_all; reflexivity.
Qed.

(** X13.  Without an expected alert and with a delay of 0 or less (a
    negative [--delay] counts as none), a finished load followed by the
    answer of the size query captures at once, and the capture uses exactly
    the size the query gave; the widget's minimum size is moved to that
    size, cut to the widget range. *)
Theorem load_then_probe_captures_at_the_probed_size :
  forall (w : World) (w0 h : Z),
    CutyPage.getAlertString (mPage w) = "" ->
    mDelay w <= 0 ->
    exitCode w = None ->
    0 < w0 -> 0 < h ->
    let w' := exec w [LoadFinished true; JavaScriptResult w0 h] in
    captures w' = S (captures w) /\
    mViewSize w' = mkQSize w0 h /\
    snapshotSizes w' = mkQSize w0 h :: snapshotSizes w /\
    CutyPage.minimumSize (mPage w')
    = mkQSize (CutyPage.bound 0 CutyPage.QWIDGETSIZE_MAX w0)
              (CutyPage.bound 0 CutyPage.QWIDGETSIZE_MAX h).
Proof.
  intros w w0 h Ha Hd Hx H1 H2 w'.
  (* the load *)
  set (w1 := DocumentComplete true w).
  assert (E1 : w1 = set_jsCallbacks (S (jsCallbacks w))
                      (set_mSawDocumentComplete true
                         (if negb (mSilent w)
                          then emit (Cerr "WebEngine finished loadFinished(true)") w
                          else w))).
  { unfold w1.
    rewrite DocumentComplete_true, updateViewport_ungated;
      destruct (negb (mSilent w)); auto. }
  assert (F1 : exitCode w1 = None /\ jsCallbacks w1 = S (jsCallbacks w) /\
               mSawDocumentComplete (set_jsCallbacks (jsCallbacks w) w1) = true /\
               CutyPage.getAlertString (mPage (set_jsCallbacks (jsCallbacks w) w1)) = "" /\
               mDelay (set_jsCallbacks (jsCallbacks w) w1) = mDelay w /\
               captures (set_jsCallbacks (jsCallbacks w) w1) = captures w /\
               snapshotSizes (set_jsCallbacks (jsCallbacks w) w1) = snapshotSizes w).
  { rewrite E1. destruct (negb (mSilent w)); cbn; split_all; auto. }
  destruct F1 as (X1 & J1 & D1 & A1 & L1 & C1 & S1).
  assert (E : w' = viewportCallback w0 h (set_jsCallbacks (jsCallbacks w) w1)).
  { unfold w'. cbn [exec dispatch]. fold w1. rewrite J1.
    reflexivity. }
  rewrite E; clear E w'.
  set (v := set_jsCallbacks (jsCallbacks w) w1) in *.
  (* the answer of the size query *)
  rewrite viewportCallback_sizeUpdate. cbv zeta.
  destruct (sizeUpdate_frame w0 h v) as (Fe & Fd & Fdl & _ & _ & _ & _ & Ftr).
  destruct (sizeUpdate_positive w0 h v H1 H2) as (Pv & Pg & Pm).
  set (u := sizeUpdate w0 h v) in *.
  rewrite Fd, D1, Pg. cbn [andb].
  rewrite TryDelayedRender_ungated
    by (unfold CutyPage.getAlertString in *; now rewrite Fe).
  replace (mDelay u >? 0) with false
    by (symmetry; rewrite Z.gtb_ltb; apply Z.ltb_ge; lia).
  destruct (saveSnapshot_frame u) as (_ & Fp & _).
  rewrite saveSnapshot_captures, saveSnapshot_snapshotSizes,
    saveSnapshot_viewSize, Fp, Pv, Pm.
  assert (N : isEmpty (mkQSize w0 h) = false).
  { unfold isEmpty. cbn. apply orb_false_intro; apply Z.ltb_ge; lia. }
  rewrite N. unfold captures, snapshotSizes. rewrite Ftr.
  fold (captures v) (snapshotSizes v). rewrite C1, S1.
  split_all; reflexivity.
Qed.

Lemma load_then_probe_captures_at_the_probed_size_witness :
  snapshotSizes
    (exec (newCutyCapt (newCutyPage false) "a.png" (-5) PngFormat
             false false false)
       [LoadFinished true; JavaScriptResult 1280 2000])
  = [mkQSize 1280 2000].
Proof.
  apply (load_then_probe_captures_at_the_probed_size
           (newCutyCapt (newCutyPage false) "a.png" (-5) PngFormat
              false false false) 1280 2000);
    [reflexivity | cbn; lia | reflexivity | lia | lia].
Defined.

Lemma javaScriptAlert_loop (msg : string) (w : World) :
  exitCode (javaScriptAlert msg w) = exitCode w /\
  mSawDocumentComplete (javaScriptAlert msg w) = mSawDocumentComplete w /\
  mSawGeometryChange (javaScriptAlert msg w) = mSawGeometryChange w /\
  snapshotSizes (javaScriptAlert msg w) = snapshotSizes w.
Proof.
  destruct w as [p o d f dc gc vs i sm si t ss js pj tj ec tr].
  unfold javaScriptAlert, snapshotSizes. cbn.
  repeat (break_if; cbn); split_all; reflexivity.
Qed.

(** X14.  The expected alert needs neither a finished load nor a known
    geometry: whatever the two flags are, the alert with the configured
    message followed by the expiry of the timer it armed enters
    [saveSnapshot] once, leaves no timer of its own behind and stops the
    timeout timer. *)
Theorem expected_alert_captures_whatever_the_flags :
  forall (w : World) (alert : string),
    CutyPage.getAlertString (mPage w) = alert ->
    alert <> "" ->
    CutyEnginePage.mCutyCapt (CutyPage.mEnginePage (mPage w)) = true ->
    exitCode w = None ->
    let w' := exec w [Alert alert;
                      SingleShotElapsed (List.length (singleShots w))] in
    captures w' = S (captures w) /\
    singleShots w' = singleShots w /\
    isActive (mTimeoutTimer w') = false /\
    mSawDocumentComplete w' = mSawDocumentComplete w /\
    mSawGeometryChange w' = mSawGeometryChange w.
Proof.
  intros w alert Ha Hne Hc Hx w'.
  set (w1 := javaScriptAlert alert w).
  destruct (javaScriptAlert_loop alert w) as (X1 & D1 & G1 & _).
  destruct (javaScriptAlert_quiet alert w) as (_ & C1 & _).
  assert (S1 : singleShots w1 = (singleShots w ++ [(10, SlotDelayed)])%list).
  { unfold w1. rewrite javaScriptAlert_singleShots, Ha, Hc, String.eqb_refl.
    destruct alert; [contradiction | reflexivity]. }
  fold w1 in X1, D1, G1, C1.
  assert (E : w' = Delayed (set_singleShots (singleShots w) w1)).
  { unfold w'. cbn [exec dispatch]. fold w1.
    rewrite S1, nth_error_snoc, removeNth_snoc. reflexivity. }
  rewrite E. unfold Delayed.
  destruct (saveSnapshot_frame (set_singleShots (singleShots w) w1))
    as (_ & _ & Fs & _ & _ & _ & Fd & Fg).
  rewrite saveSnapshot_captures, saveSnapshot_stops_timer, Fs, Fd, Fg.
  cbn. rewrite D1, G1. fold (captures w1). rewrite C1.
  split_all; reflexivity.
Qed.

Lemma expected_alert_captures_whatever_the_flags_witness :
  captures
    (exec (startup (parseArgs ["--url=http://a/"; "--out=a.png";
                               "--expect-alert=READY"] (initialArgs false)))
       [Alert "READY"; SingleShotElapsed 0]) = 1%nat.
Proof.
  apply (expected_alert_captures_whatever_the_flags
           (startup (parseArgs ["--url=http://a/"; "--out=a.png";
                                "--expect-alert=READY"] (initialArgs false)))
           "READY");
    [reflexivity | discriminate | reflexivity | reflexivity].
Defined.

(** X15.  Without [--silent] a failed load asks for exit status 1 in the
    very call that reports it, after one line on the error stream: nothing
    is captured, no size query is sent, no timer is armed and the
    document-complete flag is left alone.  The timeout timer is not
    stopped by it. *)
Theorem loud_load_failure_requests_exit_1 :
  forall w : World,
    mSilent w = false ->
    exists w' : World,
      dispatch (LoadFinished false) w = Some w' /\
      exitCode w' = Some 1 /\
      trace w' =
      AppExit 1 :: Cerr "WebEngine failed to completely load url" :: trace w /\
      captures w' = captures w /\
      jsCallbacks w' = jsCallbacks w /\
      singleShots w' = singleShots w /\
      mSawDocumentComplete w' = mSawDocumentComplete w /\
      mTimeoutTimer w' = mTimeoutTimer w.
Proof.
  intros w Hs. cbn [dispatch]. eexists. split; [reflexivity |].
  unfold DocumentComplete. rewrite Hs. cbn [negb andb].
  split_all; reflexivity.
Qed.

Lemma loud_load_failure_requests_exit_1_witness :
  exists w' : World,
    dispatch (LoadFinished false)
      (startup (parseArgs ["--url=http://a/"; "--out=a.png"]
                  (initialArgs false))) = Some w' /\
    exitCode w' = Some 1.
Proof.
  destruct (loud_load_failure_requests_exit_1
              (startup (parseArgs ["--url=http://a/"; "--out=a.png"]
                          (initialArgs false))))
    as (w' & Hd & Hx & _); [reflexivity |].
  exists w'. split; [exact Hd | exact Hx].
Defined.

(** X16.  PDF and PS take the same path: [saveSnapshot] hands the output
    path to the print, keeps the process running and leaves exactly that
    job pending; the process ends only when the print reports back, with
    status 0 on success. *)
Theorem print_formats_wait_for_the_print :
  forall w : World,
    mFormat w = PdfFormat \/ mFormat w = PsFormat ->
    exitCode w = None ->
    pdfJobs w = [] ->
    let w1 := saveSnapshot w in
    exitCode w1 = None /\
    pdfJobs w1 = [mOutput w] /\
    hd_error (trace w1) = Some (PrintToPdf (mOutput w)) /\
    textJobs w1 = textJobs w /\
    exitCode (exec w1 [PdfPrintingFinished true]) = Some 0 /\
    pdfJobs (exec w1 [PdfPrintingFinished true]) = [].
Proof.
  intros w Hf Hx Hj.
  destruct w as [p o d f dc gc vs i sm si t ss js pj tj ec tr].
  cbn in Hf, Hx, Hj; subst ec pj.
  unfold saveSnapshot; cbn.
  destruct Hf as [-> | ->]; repeat (break_if; cbn); split_all; reflexivity.
Qed.

Lemma print_formats_wait_for_the_print_witness :
  exitCode
    (exec (saveSnapshot (newCutyCapt (newCutyPage false) "a.ps" 0 PsFormat
                           false false false))
       [PdfPrintingFinished true]) = Some 0.
Proof.
  apply (print_formats_wait_for_the_print
           (newCutyCapt (newCutyPage false) "a.ps" 0 PsFormat
              false false false));
    [right; reflexivity | reflexivity | reflexivity].
Defined.

(** X17.  In the inner-text and the HTML format, when the target file can
    be opened, exactly what the engine returned is written to the
    configured path, once, and the process then asks for status 0; before
    the engine answers nothing is written and no exit is requested. *)
Theorem extraction_writes_what_the_engine_returned :
  forall (w : World) (result : string),
    mFormat w = InnerTextFormat \/ mFormat w = HtmlFormat ->
    exitCode w = None ->
    textJobs w = [] ->
    let w1 := saveSnapshot w in
    let w2 := exec w1 [ExtractionFinished result true] in
    exitCode w1 = None /\
    hd_error (trace w1)
    = Some (if format_eqb (mFormat w) HtmlFormat
            then ToHtml (mOutput w) else ToPlainText (mOutput w)) /\
    trace w2 = AppExit 0 :: FileWrite (mOutput w) result :: trace w1 /\
    exitCode w2 = Some 0 /\
    textJobs w2 = [].
Proof.
  intros w result Hf Hx Hj.
  destruct w as [p o d f dc gc vs i sm si t ss js pj tj ec tr].
  cbn in Hf, Hx, Hj; subst ec tj.
  unfold saveSnapshot; cbn.
  destruct Hf as [-> | ->]; repeat (break_if; cbn); split_all; reflexivity.
Qed.

Lemma extraction_writes_what_the_engine_returned_witness :
  hd_error
    (tl (trace
           (exec (saveSnapshot (newCutyCapt (newCutyPage false) "a.html" 0
                                  HtmlFormat false false false))
              [ExtractionFinished "<html></html>" true])))
  = Some (FileWrite "a.html" "<html></html>").
Proof.
  destruct (extraction_writes_what_the_engine_returned
              (newCutyCapt (newCutyPage false) "a.html" 0 HtmlFormat
                 false false false) "<html></html>")
    as (_ & _ & Htrace & _);
    [right; reflexivity | reflexivity | reflexivity |].
  rewrite Htrace. reflexivity.
Defined.

(** X18.  In every raster format [saveSnapshot] finds the format's
    identifier in the table and passes it to the encoder: the grabbed
    pixmap is saved as it is; only when the grab gives a null pixmap is an
    image of the settled view size painted, with the smoothing hints as
    configured.  Either way the process asks for status 0 in the same
    call, whatever the save returned. *)
Theorem raster_formats_save_with_their_identifier :
  forall w : World,
    isRaster (mFormat w) = true ->
    exists ident : string,
      ident <> "" /\
      lookupIdentifier (upToSentinel CutyExtMap) (mFormat w) = Some ident /\
      overrideFormat (upToSentinel CutyExtMap) ident OtherFormat = mFormat w /\
      trace (saveSnapshot w) =
      AppExit 0
      :: (if CutyPage.grabIsNull (mPage w)
          then ImageSave (mOutput w) (Some ident)
                 (mViewSize (saveSnapshot w)) (mSmooth w)
          else PixmapSave (mOutput w) (Some ident))
      :: SaveSnapshot (mFormat w) (Some ident) (mViewSize (saveSnapshot w))
      :: trace w /\
      exitCode (saveSnapshot w) = Some 0.
Proof.
  intros w Hr.
  destruct w as [p o d f dc gc vs i sm si t ss js pj tj ec tr].
  cbn in Hr.
  destruct f; try discriminate Hr; eexists;
    (split; [| split; [reflexivity | split; [reflexivity |]]];
     [discriminate |]);
    unfold saveSnapshot; cbn; repeat (break_if; cbn); split; reflexivity.
Qed.

Lemma raster_formats_save_with_their_identifier_witness :
  exists ident : string,
    ident <> "" /\
    lookupIdentifier (upToSentinel CutyExtMap) JpegFormat = Some ident /\
    exitCode
      (saveSnapshot (newCutyCapt (newCutyPage true) "a.jpeg" 0 JpegFormat
                       false true false)) = Some 0.
Proof.
  destruct (raster_formats_save_with_their_identifier
              (newCutyCapt (newCutyPage true) "a.jpeg" 0 JpegFormat
                 false true false))
    as (ident & Hne & Hl & _ & _ & Hx); [reflexivity |].
  exists ident. auto.
Defined.

(** ** Geometry hints and stray alerts *)

Lemma onContentsSizeChanged_loop (sz : QSizeF) (w : World) :
  captures (onContentsSizeChanged sz w) = captures w /\
  singleShots (onContentsSizeChanged sz w) = singleShots w /\
  jsCallbacks (onContentsSizeChanged sz w) = jsCallbacks w /\
  exitCode (onContentsSizeChanged sz w) = exitCode w /\
  mSawDocumentComplete (onContentsSizeChanged sz w) = mSawDocumentComplete w /\
  mPage (onContentsSizeChanged sz w) = mPage w /\
  mTimeoutTimer (onContentsSizeChanged sz w) = mTimeoutTimer w.
Proof.
  destruct w as [p o d f dc gc vs i sm si t ss js pj tj ec tr].
  unfold onContentsSizeChanged, captures. cbn.
  repeat (break_if; cbn); split_all; reflexivity.
Qed.

(** X19.  Contents-size changes are hints only: however many arrive, and
    even when the load has finished, they capture nothing, arm no timer,
    send no size query and request no exit.  A change with both dimensions
    positive records the rounded size and sets the geometry flag; any other
    change leaves both as they were. *)
Theorem contents_size_changes_never_capture :
  forall (w : World) (sizes : list QSizeF),
    (let w' := exec w (map ContentsSizeChanged sizes) in
     captures w' = captures w /\
     singleShots w' = singleShots w /\
     jsCallbacks w' = jsCallbacks w /\
     exitCode w' = exitCode w /\
     mSawDocumentComplete w' = mSawDocumentComplete w /\
     mTimeoutTimer w' = mTimeoutTimer w) /\
    (forall sz : QSizeF,
        (Qgt0 (wdF sz) && Qgt0 (htF sz) = true ->
         mViewSize (onContentsSizeChanged sz w) = toSize sz /\
         mSawGeometryChange (onContentsSizeChanged sz w) = true) /\
        (Qgt0 (wdF sz) && Qgt0 (htF sz) = false ->
         mViewSize (onContentsSizeChanged sz w) = mViewSize w /\
         mSawGeometryChange (onContentsSizeChanged sz w)
         = mSawGeometryChange w)).
Proof.
  intros w sizes. split.
  - revert w. induction sizes as [| sz sizes IH]; intros w; cbn [map exec].
    + split_all; reflexivity.
    + cbn [dispatch].
      destruct (onContentsSizeChanged_loop sz w)
        as (A & B & C & D & E & _ & F).
      specialize (IH (onContentsSizeChanged sz w)). cbv zeta in IH.
      destruct IH as (A' & B' & C' & D' & E' & F').
      rewrite A', B', C', D', E', F', A, B, C, D, E, F.
      split_all; reflexivity.
  - intros sz. unfold onContentsSizeChanged.
    destruct w as [p o d f dc gc vs i sm si t ss js pj tj ec tr].
    split; intros H; rewrite H; cbn; destruct si; cbn; split; reflexivity.
Qed.

Lemma contents_size_changes_never_capture_witness :
  mViewSize
    (onContentsSizeChanged (mkQSizeF (1023 # 2) 300)
       (newCutyCapt (newCutyPage false) "a.png" 0 PngFormat false false false))
  = mkQSize 512 300.
Proof.
  apply (proj2 (contents_size_changes_never_capture
                  (newCutyCapt (newCutyPage false) "a.png" 0 PngFormat
                     false false false) [])
           (mkQSizeF (1023 # 2) 300)).
  reflexivity.
Defined.

Lemma javaScriptAlert_trace (msg : string) (w : World) :
  trace (javaScriptAlert msg w) =
  if CutyEnginePage.mPrintAlerts (CutyPage.mEnginePage (mPage w))
  then QDebug msg :: trace w else trace w.
Proof.
  destruct w as [p o d f dc gc vs i sm si t ss js pj tj ec tr].
  unfold javaScriptAlert. cbn. repeat (break_if; cbn); reflexivity.
Qed.

(** X21.  Without an expected alert (none given, or [--expect-alert=] with
    an empty value) no alert ever schedules a capture, not even one with
    an empty message: after any number of alerts nothing is captured, no
    timer is pending that was not before and no exit is requested.  With
    alert printing on, every alert is logged, matching or not, and nothing
    else is written; with it off alerts write nothing. *)
Theorem alerts_without_expected_alert_do_nothing :
  forall (w : World) (msgs : list string),
    CutyPage.getAlertString (mPage w) = "" ->
    let w' := exec w (map Alert msgs) in
    captures w' = captures w /\
    singleShots w' = singleShots w /\
    exitCode w' = exitCode w /\
    (exitCode w = None ->
     trace w' =
     if CutyEnginePage.mPrintAlerts (CutyPage.mEnginePage (mPage w))
     then (rev (map QDebug msgs) ++ trace w)%list else trace w).
Proof.
  intros w msgs. revert w.
  induction msgs as [| msg msgs IH]; intros w Ha; cbn [map exec].
  - split_all; try reflexivity. intros _. destruct (CutyEnginePage.mPrintAlerts _);
      reflexivity.
  - cbn [dispatch].
    destruct (javaScriptAlert_quiet msg w) as ((_ & Fe & _) & (C & _)).
    destruct (javaScriptAlert_loop msg w) as (X & _).
    assert (S : singleShots (javaScriptAlert msg w) = singleShots w).
    { rewrite javaScriptAlert_singleShots, Ha. reflexivity. }
    assert (Ha' : CutyPage.getAlertString (mPage (javaScriptAlert msg w)) = "").
    { unfold CutyPage.getAlertString in *. now rewrite Fe. }
    specialize (IH (javaScriptAlert msg w) Ha'). cbv zeta in IH.
    destruct IH as (C' & S' & X' & T').
    rewrite C', S', X', C, S, X. split_all; try reflexivity.
    intros Hx. assert (T : exitCode (javaScriptAlert msg w) = None)
      by congruence.
    specialize (T' T). rewrite Fe in T'.
    rewrite T', javaScriptAlert_trace.
    destruct (CutyEnginePage.mPrintAlerts _); [| reflexivity].
    cbn [rev map]. now rewrite <- app_assoc.
Qed.

Lemma alerts_without_expected_alert_do_nothing_witness :
  singleShots
    (exec (startup (parseArgs ["--url=http://a/"; "--out=a.png";
                               "--expect-alert="] (initialArgs false)))
       (map Alert [""; "READY"])) = [].
Proof.
  apply (alerts_without_expected_alert_do_nothing
           (startup (parseArgs ["--url=http://a/"; "--out=a.png";
                                "--expect-alert="] (initialArgs false)))
           [""; "READY"]).
  reflexivity.
Defined.

(** ** Engine settings *)





(** ** The flags *)

Lemma parseArg_flags (s : string) (a : Args) :
  argSilent (fst (parseArg s a)) = argSilent a || strcmp0 "--silent" s /\
  argInsecure (fst (parseArg s a)) = argInsecure a || strcmp0 "--insecure" s /\
  argSmooth (fst (parseArg s a)) = argSmooth a || strcmp0 "--smooth" s /\
  CutyEnginePage.mPrintAlerts (CutyPage.mEnginePage (page (fst (parseArg s a))))
  = CutyEnginePage.mPrintAlerts (CutyPage.mEnginePage (page a))
    || strcmp0 "--debug-print-alerts" s.
Proof.
  unfold parseArg, strcmp0.
  destruct ("--silent" =? s)%string eqn:E1;
    [apply String.eqb_eq in E1; subst s; cbn;
     rewrite ?orb_true_r, ?orb_false_r; split_all; reflexivity |].
  destruct ("--help" =? s)%string eqn:E2;
    [apply String.eqb_eq in E2; subst s; cbn;
     rewrite ?orb_true_r, ?orb_false_r; split_all; reflexivity |].
  destruct ("--insecure" =? s)%string eqn:E3;
    [apply String.eqb_eq in E3; subst s; cbn;
     rewrite ?orb_true_r, ?orb_false_r; split_all; reflexivity |].
  destruct ("--smooth" =? s)%string eqn:E4;
    [apply String.eqb_eq in E4; subst s; cbn;
     rewrite ?orb_true_r, ?orb_false_r; split_all; reflexivity |].
  destruct ("--debug-print-alerts" =? s)%string eqn:E5;
    [apply String.eqb_eq in E5; subst s; cbn;
     rewrite ?orb_true_r, ?orb_false_r; split_all; reflexivity |].
  rewrite !orb_false_r.
  repeat lazymatch goal with
    | |- context [fst (if ?c then _ else _)] => destruct c
    | |- context [fst (match strchr ?x ?c with _ => _ end)] =>
        destruct (strchr x c) as [[? ?] |]
    | |- context [fst (let a := _ in _)] => cbv zeta
    end; cbn; split_all; reflexivity.
Qed.

Lemma parsePrefix_flags (args : list string) :
  forall a a' : Args,
    parsePrefix args a = Some a' ->
    argSilent a' = argSilent a || existsb (strcmp0 "--silent") args /\
    argInsecure a' = argInsecure a || existsb (strcmp0 "--insecure") args /\
    argSmooth a' = argSmooth a || existsb (strcmp0 "--smooth") args /\
    CutyEnginePage.mPrintAlerts (CutyPage.mEnginePage (page a'))
    = CutyEnginePage.mPrintAlerts (CutyPage.mEnginePage (page a))
      || existsb (strcmp0 "--debug-print-alerts") args /\
    (argHelp a' = false -> existsb (strcmp0 "--help") args = false).
Proof.
  induction args as [| s args IH]; intros a a' H; cbn [parsePrefix] in H.
  - inversion H; subst. cbn. rewrite !orb_false_r. split_all; auto.
  - pose proof (parseArg_flags s a) as F.
    pose proof (parseArg_break_sets_help s a) as B.
    assert (Hh : strcmp0 "--help" s = true -> snd (parseArg s a) = true).
    { unfold parseArg, strcmp0. intros E.
      apply String.eqb_eq in E. subst s. reflexivity. }
    destruct (parseArg s a) as [a1 stop]. cbn [fst snd] in F, B, Hh.
    destruct stop; [discriminate |].
    destruct F as (F1 & F2 & F3 & F4).
    destruct (IH a1 a' H) as (I1 & I2 & I3 & I4 & I5).
    cbn [existsb]. rewrite I1, I2, I3, I4, F1, F2, F3, F4, !orb_assoc.
    split_all; auto.
    intros Hf. rewrite (I5 Hf), orb_false_r.
    destruct (strcmp0 "--help" s); [| reflexivity].
    now specialize (Hh eq_refl).
Qed.

Lemma parsePrefix_or_help (args : list string) :
  forall a : Args,
    parsePrefix args a = Some (parseArgs args a) \/
    argHelp (parseArgs args a) = true.
Proof.
  induction args as [| s args IH]; intros a; cbn [parsePrefix parseArgs].
  - now left.
  - pose proof (parseArg_break_sets_help s a) as B.
    destruct (parseArg s a) as [a1 stop]. cbn [fst snd] in B.
    destruct stop; [right; now apply B | apply IH].
Qed.

Lemma existsb_strcmp0 (lit : string) (args : list string) :
  existsb (strcmp0 lit) args = true <-> In lit args.
Proof.
  rewrite existsb_exists. unfold strcmp0. split.
  - intros (x & Hx & E). apply String.eqb_eq in E. now subst.
  - intros H. exists lit. split; [exact H | apply String.eqb_refl].
Qed.


(** ** Sizes over a whole run *)
















(** ** Where readiness is decided *)




(** ** The command line as Qt leaves it *)

(** X5.  A malformed argument among those the constructor of
    [QApplication] leaves for the loop, wherever it stands, makes [main]
    print the help and return [EXIT_FAILURE], whatever the other arguments
    are and whatever the engine would deliver: an argument without [=]
    that is none of [--silent], [--insecure], [--smooth] and
    [--debug-print-alerts] (so also [--help]), and a [--header] whose value
    has no colon.  An option Qt takes for itself never reaches the loop
    and is not spoken of. *)
Theorem malformed_argument_left_by_Qt_fails :
  forall (QApplication_argv : list string -> list string) (grabNull : bool)
         (commandLine : list string) (prog s : string)
         (pre rest : list string) (events : list Event),
    QApplication_argv commandLine = (prog :: pre ++ s :: rest)%list ->
    (strchr s "="%char = None /\
     s <> "--silent" /\ s <> "--insecure" /\ s <> "--smooth" /\
     s <> "--debug-print-alerts") \/
    (exists value, s = "--header=" ++ value /\ strchr value ":"%char = None) ->
    main_setup grabNull (QApplication_argv commandLine) = Help /\
    cutycapt QApplication_argv grabNull commandLine events = Some EXIT_FAILURE.
Proof.
  intros QApplication_argv grabNull commandLine prog s pre rest events Hq H.
  assert (E : main_setup grabNull (QApplication_argv commandLine) = Help).
  { rewrite Hq. apply main_setup_help. cbn [tl].
    apply parseArgs_help_anywhere.
    intros a. destruct H as [(He & H1 & H2 & H3 & H4) | (value & -> & Hc)].
    - now rewrite parseArg_no_equals.
    - rewrite parseArg_header, Hc. reflexivity. }
  split; [exact E |]. unfold cutycapt, main. now rewrite E.
Qed.

Lemma malformed_argument_left_by_Qt_fails_witness :
  cutycapt withoutStyleOption false
    ["cutycapt"; "--url=http://a/"; "-style"; "fusion"; "--out=a.png";
     "--verbose"; "--delay=100"] [LoadFinished true] = Some EXIT_FAILURE.
Proof.
  apply (malformed_argument_left_by_Qt_fails withoutStyleOption false
           ["cutycapt"; "--url=http://a/"; "-style"; "fusion"; "--out=a.png";
            "--verbose"; "--delay=100"]
           "cutycapt" "--verbose"
           ["--url=http://a/"; "--out=a.png"] ["--delay=100"]
           [LoadFinished true]);
    [reflexivity |].
  left. split_all; [reflexivity | discriminate ..].
Defined.

(** X22.  In a run that starts, each flag is on exactly when its full
    spelling is among the arguments the constructor of [QApplication]
    leaves for the loop, wherever it stands there: [--silent], [--smooth],
    [--insecure] (for [CutyCapt] and for the engine page alike) and
    [--debug-print-alerts]; and [--help] is not among them.  A flag that Qt
    has taken as the value of one of its own options is not among them
    and stays off. *)
Theorem flags_are_on_exactly_when_left_by_Qt :
  forall (QApplication_argv : list string -> list string) (grabNull : bool)
         (commandLine : list string) (w : World),
    main_setup grabNull (QApplication_argv commandLine) = Running w ->
    (mSilent w = true <-> In "--silent" (tl (QApplication_argv commandLine))) /\
    (mSmooth w = true <-> In "--smooth" (tl (QApplication_argv commandLine))) /\
    (mInsecure w = true <->
     In "--insecure" (tl (QApplication_argv commandLine))) /\
    (CutyEnginePage.mInsecure (CutyPage.mEnginePage (mPage w)) = true <->
     In "--insecure" (tl (QApplication_argv commandLine))) /\
    (CutyEnginePage.mPrintAlerts (CutyPage.mEnginePage (mPage w)) = true <->
     In "--debug-print-alerts" (tl (QApplication_argv commandLine))) /\
    ~ In "--help" (tl (QApplication_argv commandLine)).
Proof.
  intros QApplication_argv grabNull commandLine w Hm.
  set (argv := QApplication_argv commandLine) in *.
  unfold main_setup in Hm.
  set (a := parseArgs (tl argv) (initialArgs grabNull)) in *.
  destruct (argUrl a); [| discriminate].
  destruct (argHelp a) eqn:Hh;
    [rewrite orb_true_r in Hm; discriminate |].
  destruct (isEmptyStr (argOut a)); [discriminate |].
  cbn in Hm. inversion Hm; subst w; clear Hm.
  destruct (parsePrefix_or_help (tl argv) (initialArgs grabNull)) as [P | P];
    [| fold a in P; congruence].
  fold a in P.
  destruct (parsePrefix_flags _ _ _ P) as (F1 & F2 & F3 & F4 & F5).
  cbn in F1, F2, F3, F4.
  assert (S : mSilent (startup a) = argSilent a /\
              mSmooth (startup a) = argSmooth a /\
              mInsecure (startup a) = argInsecure a /\
              CutyEnginePage.mInsecure
                (CutyPage.mEnginePage (mPage (startup a))) = argInsecure a /\
              CutyEnginePage.mPrintAlerts
                (CutyPage.mEnginePage (mPage (startup a)))
              = CutyEnginePage.mPrintAlerts (CutyPage.mEnginePage (page a))).
  { unfold startup. destruct (argMaxWait a >? 0); cbn; split_all; reflexivity. }
  destruct S as (S1 & S2 & S3 & S4 & S5).
  rewrite S1, S2, S3, S4, S5, F1, F2, F3, F4.
  rewrite <- !existsb_strcmp0.
  split_all; try reflexivity.
  rewrite (F5 Hh). discriminate.
Qed.

Lemma flags_are_on_exactly_when_left_by_Qt_witness :
  mSilent
    (startup (parseArgs ["--silent"; "--url=http://a/"; "--out=a.png"]
                (initialArgs false))) = true /\
  mSilent
    (startup (parseArgs ["--url=http://a/"; "--out=a.png"] (initialArgs false)))
  = false.
Proof.
  split.
  - apply (flags_are_on_exactly_when_left_by_Qt withoutStyleOption false
             ["cutycapt"; "-style"; "fusion"; "--silent"; "--url=http://a/";
              "--out=a.png"]
             (startup (parseArgs ["--silent"; "--url=http://a/"; "--out=a.png"]
                         (initialArgs false))));
      [reflexivity | cbn; tauto].
  - destruct (mSilent
                (startup (parseArgs ["--url=http://a/"; "--out=a.png"]
                            (initialArgs false)))) eqn:E; [| reflexivity].
    exfalso.
    destruct (flags_are_on_exactly_when_left_by_Qt withoutStyleOption false
                ["cutycapt"; "-style"; "--silent"; "--url=http://a/";
                 "--out=a.png"]
                (startup (parseArgs ["--url=http://a/"; "--out=a.png"]
                            (initialArgs false))))
      as ((Hsilent & _) & _); [reflexivity |].
    specialize (Hsilent E). cbn in Hsilent.
    destruct Hsilent as [H | [H | []]]; discriminate H.
Defined.
